(** * Tatodetect database generator ([tools/generate.py])

    A shallow embedding of the n-gram counting pass
    ([RawTatodetectDB.count]), of the key-content extraction
    ([TatodetectDB.extract_key_content_from]), of the blacklist loader
    ([get_sentences_with_tag]) and of the script's [main], together with
    the properties stated about them.

    Conventions.
    - A Python [str] is a list of Unicode code points ([list N]); [len] is
      [length], so a character outside ASCII counts once.
    - A Python exception is a value of [exn]; code that may raise returns
      [exn + A], [inl e] meaning that [e] propagates.
    - A Python [dict] is an association list in insertion order (the order
      [items()] iterates in); an sqlite table with a [UNIQUE] key is a
      [gmap] from the key to the remaining column. *)

From stdpp Require Import gmap list strings.
From Stdlib Require Import ZArith Ascii.
From Stdlib Require QArith.

Local Open Scope Z_scope.

(** ** Python strings *)

(** An ASCII literal as a Python string. *)
Definition py (s : string) : list N := N_of_ascii <$> String.list_ascii_of_string s.

Definition TAB : N := 9%N.

(** [str.isspace] on one character: the code points whose bidirectional
    class is WS, B or S, or whose category is Zs. *)
Definition isspace (c : N) : bool :=
  ((9 <=? c) && (c <=? 13) || (28 <=? c) && (c <=? 32)
   || (c =? 133) || (c =? 160) || (c =? 5760)
   || (8192 <=? c) && (c <=? 8202)
   || (c =? 8232) || (c =? 8233) || (c =? 8239) || (c =? 8287)
   || (c =? 12288))%N.

Fixpoint lstrip (s : list N) : list N :=
  match s with
  | c :: r => if isspace c then lstrip r else s
  | [] => []
  end.

(** [s.rstrip()] *)
Definition rstrip (s : list N) : list N := rev (lstrip (rev s)).

(** [s.split(sep)] for a one-character separator: never empty. *)
Fixpoint split (sep : N) (s : list N) : list (list N) :=
  match s with
  | [] => [[]]
  | c :: r =>
      if (c =? sep)%N then [] :: split sep r
      else match split sep r with
           | f :: fs => (c :: f) :: fs
           | [] => [[c]]
           end
  end.

(** [s[i:j]] for [0 <= i <= j]. *)
Definition slice (s : list N) (i j : nat) : list N := take (j - i) (drop i s).

(** [range(z)] *)
Definition range (z : Z) : list nat := seq 0 (Z.to_nat z).

(** [len(s)] *)
Definition len (s : list N) : Z := Z.of_nat (length s).

(** ** Exceptions *)

Inductive exn : Set :=
  | IndexError
  | ValueError
  | TypeError
  | UnboundLocalError
  | FileNotFoundError
  | OperationalError
  | IntegrityError.

Global Instance exn_eq_dec : EqDecision exn.
Proof. solve_decision. Defined.

Definition bind {A B} (r : exn + A) (k : A → exn + B) : exn + B :=
  match r with
  | inl e => inl e
  | inr a => k a
  end.

Notation "'let!' x ':=' r 'in' k" := (bind r (λ x, k))
  (at level 10, x name, r at level 100, k at level 200, only parsing).

(** [raises r]: the computation ends with an uncaught exception. *)
Definition raises {A} (r : exn + A) : Prop := ∃ e, r = inl e.

(** ** Dictionaries in insertion order *)

Section dict.
Context {K V : Type} `{EqDecision K}.

(** [d.get(k)] *)
Fixpoint dict_get (d : list (K * V)) (k : K) : option V :=
  match d with
  | [] => None
  | (k', v) :: r => if decide (k' = k) then Some v else dict_get r k
  end.

(** [d[k] = v]: an existing key keeps its place, a new one goes last. *)
Fixpoint dict_set (d : list (K * V)) (k : K) (v : V) : list (K * V) :=
  match d with
  | [] => [(k, v)]
  | (k', v') :: r =>
      if decide (k' = k) then (k, v) :: r else (k', v') :: dict_set r k v
  end.
End dict.

(** ** Constants of the module *)

Definition IDEOGRAM_LANGS : list (list N) := [py "wuu"; py "yue"; py "cmn"].
Definition MIN_USER_CONTRIB_IN_LANG : Z := 100.
Definition MIN_NGRAM_SIZE : nat := 2.
Definition MAX_NGRAM_SIZE : nat := 5.

(** The null marker of the dump for an unset language: backslash, N. *)
Definition NULL_LANG : list N := [92%N; 78%N].

(** ** Corpus lines *)

(** [sent_id, lang, text, user = fields[:4]]: unpacking a list that is
    too short raises [ValueError]. *)
Definition unpack4 (fields : list (list N))
  : exn + (list N * list N * list N * list N) :=
  match take 4 fields with
  | [a; b; c; d] => inr (a, b, c, d)
  | _ => inl ValueError
  end.

(** Lines 103-104. *)
Definition parse_fields (line : list N)
  : exn + (list N * list N * list N * list N) :=
  unpack4 (split TAB (rstrip line)).

(** Line 110: the language is unset. *)
Definition lang_unset (lang : list N) : bool :=
  bool_decide (lang = NULL_LANG) || bool_decide (lang = []).

(** ** The raw database *)

(** A table [grams{n}]: [UNIQUE(gram, lang)], so a map from
    [(gram, lang)] to [hit]. *)
Abbreviation table := (gmap (list N * list N) Z).

(** Lines 188-196: [INSERT ... ON CONFLICT (gram, lang) DO UPDATE SET
    hit = hit + :hits]. *)
Definition upsert_row (ngram lang : list N) (hits : Z) (t : table) : table :=
  match t !! (ngram, lang) with
  | None => <[(ngram, lang) := hits]> t
  | Some hit => <[(ngram, lang) := hit + hits]> t
  end.

(** Lines 186-196: the two loops of [_upsert_ngram_hits] over
    [lang_ngram_cnt.items()] and [d.items()]. *)
Definition _upsert_ngram_hits
    (lang_ngram_cnt : list (list N * list (list N * Z))) (t : table) : table :=
  foldl (λ t '(lang, d),
           foldl (λ t '(ngram, hits), upsert_row ngram lang hits t) t d)
        t lang_ngram_cnt.

(** The inner loop of [_upsert_ngram_hits] for one language. *)
Definition upsert_dict (lang : list N) (d : list (list N * Z)) (t : table)
  : table :=
  foldl (λ t '(ngram, hits), upsert_row ngram lang hits t) t d.

(** Lines 155-165 of [_init_db]: one empty table per n-gram size. *)
Definition init_grams : gmap nat table :=
  foldl (λ g n, <[n := ∅]> g) ∅
        (seq MIN_NGRAM_SIZE (MAX_NGRAM_SIZE + 1 - MIN_NGRAM_SIZE)).

(** ** The counting pass *)

Inductive platform : Set := Linux | Darwin | OtherPlatform.

Global Instance platform_eq_dec : EqDecision platform.
Proof. solve_decision. Defined.

(** What the run leaves behind, beside the database. *)
Inductive event : Set :=
  | EvOpen (n : nat)              (* line 99: the corpus is opened *)
  | EvStatus (n line_number : nat) (force : bool)   (* lines 218-223 *)
  | EvSkipped (line_id : nat)     (* line 106 *)
  | EvUpsert (n : nat).           (* a call of [_upsert_ngram_hits] *)

(** The local variables of [count], the raw database, the number of
    calls of [getrusage] so far and the events so far (latest first). *)
Record state := State {
  tot_ngrams : Z;
  peak_tot_ngrams : option Z;
  user_lang_score : list ((list N * list N) * Z);
  lang_ngram_cnt : list (list N * list (list N * Z));
  raw_grams : gmap nat table;
  raw_users_langs : list (list N * list N * Z);
  probes : nat;
  trace : list event
}.

Definition set_counting (σ : state) (cnt : list (list N * list (list N * Z)))
    (tot : Z) : state :=
  State tot (peak_tot_ngrams σ) (user_lang_score σ) cnt
        (raw_grams σ) (raw_users_langs σ) (probes σ) (trace σ).

Definition set_scores (σ : state) (sc : list ((list N * list N) * Z)) : state :=
  State (tot_ngrams σ) (peak_tot_ngrams σ) sc (lang_ngram_cnt σ)
        (raw_grams σ) (raw_users_langs σ) (probes σ) (trace σ).

Definition set_peak (σ : state) (peak : option Z) : state :=
  State (tot_ngrams σ) peak (user_lang_score σ) (lang_ngram_cnt σ)
        (raw_grams σ) (raw_users_langs σ) (probes σ) (trace σ).

Definition set_grams (σ : state) (g : gmap nat table) : state :=
  State (tot_ngrams σ) (peak_tot_ngrams σ) (user_lang_score σ)
        (lang_ngram_cnt σ) g (raw_users_langs σ) (probes σ) (trace σ).

Definition set_users (σ : state) (u : list (list N * list N * Z)) : state :=
  State (tot_ngrams σ) (peak_tot_ngrams σ) (user_lang_score σ)
        (lang_ngram_cnt σ) (raw_grams σ) u (probes σ) (trace σ).

Definition probed (σ : state) : state :=
  State (tot_ngrams σ) (peak_tot_ngrams σ) (user_lang_score σ)
        (lang_ngram_cnt σ) (raw_grams σ) (raw_users_langs σ)
        (S (probes σ)) (trace σ).

Definition emit (ev : event) (σ : state) : state :=
  State (tot_ngrams σ) (peak_tot_ngrams σ) (user_lang_score σ)
        (lang_ngram_cnt σ) (raw_grams σ) (raw_users_langs σ)
        (probes σ) (ev :: trace σ).

(** Lines 123-125, for one window: [lang_ngram_cnt[lang]] is read first,
    which creates the empty inner dictionary of a new language. *)
Definition count_ngram (lang ngram : list N)
    (acc : list (list N * list (list N * Z)) * Z)
  : list (list N * list (list N * Z)) * Z :=
  let '(cnt, tot) := acc in
  let d := default [] (dict_get cnt lang) in
  let tot := if dict_get d ngram is None then tot + 1 else tot in
  (dict_set cnt lang (dict_set d ngram (default 0 (dict_get d ngram) + 1)),
   tot).

(** Lines 121-125: every window of [n] characters of [text]. *)
Definition count_text (n : nat) (lang text : list N)
    (acc : list (list N * list (list N * Z)) * Z)
  : list (list N * list (list N * Z)) * Z :=
  foldl (λ acc i, count_ngram lang (slice text i (i + n)) acc) acc
        (range (len text - Z.of_nat n + 1)).

(** Line 118: [user_lang_score[(user, lang)] += len(text)]. *)
Definition add_score (user lang text : list N)
    (sc : list ((list N * list N) * Z)) : list ((list N * list N) * Z) :=
  dict_set sc (user, lang) (default 0 (dict_get sc (user, lang)) + len text).

(** [_upsert_ngram_hits(lang_ngram_cnt, f"grams{n}")] on the database: a
    table that does not exist is an sqlite error. *)
Definition upsert_table (n : nat) (σ : state) : exn + state :=
  match raw_grams σ !! n with
  | None => inl OperationalError
  | Some t =>
      inr (emit (EvUpsert n)
             (set_grams σ (<[n := _upsert_ngram_hits (lang_ngram_cnt σ) t]>
                             (raw_grams σ))))
  end.

(** Lines 212-223: the progress message, every 10000 lines or when
    forced. *)
Definition _print_status (line_number ngram_size : nat) (force : bool)
    (σ : state) : state :=
  if bool_decide (line_number `mod` 10000 = 0)%nat || force
  then emit (EvStatus ngram_size line_number force) σ else σ.

(** Lines 135-138. *)
Definition flush (n : nat) (σ : state) : exn + state :=
  let! σ := upsert_table n σ in
  inr (set_counting (set_peak σ (Some (tot_ngrams σ))) [] 0).

Section count.
(** The builtin [int] on strings, the platform, the peak resident set
    size [getrusage] reports at its i-th call, and the arguments of
    [count]: the lines of the corpus file, the blacklist and the memory
    ceiling. *)
Variable py_int : list N → option Z.
Variable sys_platform : platform.
Variable ru_maxrss : nat → Z.
Variable sentences_detailed : list (list N).
Variable sentence_blacklist : gset Z.
Variable max_memory : Z.

(** Lines 374-381; on another platform the function returns [None]. *)
Definition get_peak_memory_usage (peak : Z) : option Z :=
  match sys_platform with
  | Linux => Some (peak `div` 1000)
  | Darwin => Some (peak `div` 1000 ^ 2)
  | OtherPlatform => None
  end.

(** Lines 128-138. [and] and [or] are lazy: memory is read only while
    [peak_tot_ngrams] is [None], and [None >= max_memory] is a
    [TypeError]. *)
Definition flush_if_full (n : nat) (σ : state) : exn + state :=
  match peak_tot_ngrams σ with
  | None =>
      match get_peak_memory_usage (ru_maxrss (probes σ)) with
      | None => inl TypeError
      | Some m =>
          if bool_decide (max_memory ≤ m) then flush n (probed σ)
          else inr (probed σ)
      end
  | Some peak =>
      if bool_decide (peak ≤ tot_ngrams σ) then flush n σ else inr σ
  end.

(** Lines 102-138: a line after the status report. The handler of line
    105 catches [IndexError] only. *)
Definition process_line (n line_id : nat) (line : list N) (σ : state)
  : exn + state :=
  match parse_fields line with
  | inl IndexError => inr (emit (EvSkipped line_id) σ)
  | inl e => inl e
  | inr (sent_id, lang, text, user) =>
      if lang_unset lang then inr σ
      else
        match py_int sent_id with
        | None => inl ValueError
        | Some id =>
            if bool_decide (id ∈ sentence_blacklist) then inr σ
            else
              let σ :=
                if bool_decide (n = MIN_NGRAM_SIZE)
                then set_scores σ (add_score user lang text (user_lang_score σ))
                else σ in
              let '(cnt, tot) :=
                count_text n lang text (lang_ngram_cnt σ, tot_ngrams σ) in
              flush_if_full n (set_counting σ cnt tot)
        end
  end.

(** Lines 101-138: the body of the loop over the lines. *)
Definition loop_body (n line_id : nat) (line : list N) (σ : state)
  : exn + state :=
  process_line n line_id line (_print_status line_id n false σ).

(** Line 100: [for line_id, line in enumerate(f)]. *)
Fixpoint for_lines (n line_id : nat) (lines : list (list N)) (σ : state)
  : exn + state :=
  match lines with
  | [] => inr σ
  | line :: rest =>
      let! σ := loop_body n line_id line σ in
      for_lines n (S line_id) rest σ
  end.

(** Lines 97-145: one pass. [line_id] is unbound at line 140 when the
    file has no line. *)
Definition count_pass (n : nat) (σ : state) : exn + state :=
  let σ := emit (EvOpen n) (set_counting σ [] (tot_ngrams σ)) in
  let! σ := for_lines n 0 sentences_detailed σ in
  if sentences_detailed is [] then inl UnboundLocalError
  else upsert_table n
         (_print_status (length sentences_detailed - 1) n true σ).

(** [range(MAX_NGRAM_SIZE, MIN_NGRAM_SIZE - 1, -1)] *)
Definition ngram_sizes : list nat :=
  rev (seq MIN_NGRAM_SIZE (MAX_NGRAM_SIZE + 1 - MIN_NGRAM_SIZE)).

Fixpoint for_sizes (sizes : list nat) (σ : state) : exn + state :=
  match sizes with
  | [] => inr σ
  | n :: rest => let! σ := count_pass n σ in for_sizes rest σ
  end.

(** Lines 89-95: the former database is deleted and the tables are
    created empty. *)
Definition initial : state :=
  State 0 None [] [] init_grams [] 0 [].

(** Lines 204-208 of [_insert_user_scores]: one row per item. *)
Definition _insert_user_scores (σ : state) : state :=
  set_users σ (raw_users_langs σ
               ++ ((λ '((user, lang), hit), (user, lang, hit))
                     <$> user_lang_score σ)).

(** [RawTatodetectDB.count] *)
Definition count : exn + state :=
  let! σ := for_sizes ngram_sizes initial in
  inr (_insert_user_scores σ).
End count.

(** The record [(lang, text, user)] a line contributes, when lines
    102-114 let it through: four fields, a language that is set, an id
    that is not blacklisted. *)
Definition record_of (py_int : list N → option Z) (sentence_blacklist : gset Z)
    (line : list N) : option (list N * list N * list N) :=
  match parse_fields line with
  | inr (sent_id, lang, text, user) =>
      if lang_unset lang then None
      else
        match py_int sent_id with
        | Some id =>
            if bool_decide (id ∈ sentence_blacklist) then None
            else Some (lang, text, user)
        | None => None
        end
  | inl _ => None
  end.

(** The records of a corpus, in file order. *)
Definition records (py_int : list N → option Z) (sentence_blacklist : gset Z)
    (lines : list (list N)) : list (list N * list N * list N) :=
  omap (record_of py_int sentence_blacklist) lines.

(** The builtin [int] restricted to ASCII: blanks around, a sign, decimal
    digits. Used to run the model on concrete lines. *)
Definition digit (c : N) : option Z :=
  if ((48 <=? c) && (c <=? 57))%N then Some (Z.of_N c - 48) else None.

Fixpoint digits (acc : Z) (s : list N) : option Z :=
  match s with
  | [] => Some acc
  | c :: r => match digit c with
              | Some d => digits (10 * acc + d) r
              | None => None
              end
  end.

Definition ascii_int (s : list N) : option Z :=
  match lstrip (rstrip s) with
  | [] => None
  | 45%N :: (_ :: _) as r => Z.opp <$> digits 0 (tail (lstrip (rstrip s)))
  | 43%N :: (_ :: _) as r => digits 0 (tail (lstrip (rstrip s)))
  | r => digits 0 r
  end.

Arguments count_ngram : simpl never.
Arguments count_text : simpl never.
Arguments _print_status : simpl never.

(** ** What a pass ought to compute *)

(** The n-grams of [text]: its windows of [n] characters, left to right. *)
Definition windows (n : nat) (text : list N) : list (list N) :=
  (λ i, slice text i (i + n)) <$> range (len text - Z.of_nat n + 1).

(** One hit per window of [text], straight into the table. *)
Definition hit_windows (n : nat) (lang text : list N) (t : table) : table :=
  foldl (λ t ngram, upsert_row ngram lang 1 t) t (windows n text).

(** The same for a list of records [(lang, text, user)]. *)
Definition hit_records (n : nat) (recs : list (list N * list N * list N))
    (t : table) : table :=
  foldl (λ t '(lang, text, _), hit_windows n lang text t) t recs.

(** The score dictionary after the records. *)
Definition add_scores (recs : list (list N * list N * list N))
    (sc : list ((list N * list N) * Z)) : list ((list N * list N) * Z) :=
  foldl (λ sc '(lang, text, user), add_score user lang text sc) sc recs.

(** The buffer of one batch of records, counted from an empty buffer. *)
Definition accumulate (n : nat) (recs : list (list N * list N * list N))
  : list (list N * list (list N * Z)) :=
  (foldl (λ acc '(lang, text, _), count_text n lang text acc) ([], 0) recs).1.

(** Each batch is counted from an empty buffer and written in turn. *)
Definition merge_batches (n : nat)
    (batches : list (list (list N * list N * list N))) (t : table) : table :=
  foldl (λ t batch, _upsert_ngram_hits (accumulate n batch) t) t batches.

(** Lines 272-276, [SELECT lang, SUM(hit) AS tot FROM grams{n} GROUP BY
    lang], read at one language. *)
Definition lang_total (t : table) (lang : list N) : Z :=
  map_fold (λ k hit tot, if bool_decide (k.2 = lang) then tot + hit else tot)
           0 t.

(** The number of windows of [n] characters in the records of [lang]. *)
Definition windows_total (n : nat) (lang : list N)
    (recs : list (list N * list N * list N)) : Z :=
  foldr (λ '(l, text, _) acc,
           (if bool_decide (l = lang)
            then Z.max 0 (len text - Z.of_nat n + 1) else 0) + acc)
        0 recs.

(** ** Invariant of a pass *)

(** The table [grams{n}] as it would be if the buffer were written now. *)
Definition view (n : nat) (σ : state) : option table :=
  _upsert_ngram_hits (lang_ngram_cnt σ) <$> raw_grams σ !! n.

(** [σ'] is [σ] after the records [recs] went through pass [n]. *)
Record pass_rel (n : nat) (recs : list (list N * list N * list N))
    (σ σ' : state) : Prop := PassRel {
  pass_view : view n σ' = hit_records n recs <$> view n σ;
  pass_others : ∀ m, m ≠ n → raw_grams σ' !! m = raw_grams σ !! m;
  pass_scores :
    user_lang_score σ' =
      if bool_decide (n = MIN_NGRAM_SIZE)
      then add_scores recs (user_lang_score σ) else user_lang_score σ;
  pass_users : raw_users_langs σ' = raw_users_langs σ
}.

(** ** Observations on a run *)

(** Lines 116-125 on a record that is let through: the state when the
    flush test of line 128 is reached. *)
Definition counted (n : nat) (lang text user : list N) (σ : state) : state :=
  let σ1 :=
    if bool_decide (n = MIN_NGRAM_SIZE)
    then set_scores σ (add_score user lang text (user_lang_score σ))
    else σ in
  let '(cnt, tot) := count_text n lang text (lang_ngram_cnt σ, tot_ngrams σ) in
  set_counting σ1 cnt tot.

(** The events that mark a pass: the file is opened, and the forced
    status report after its last line. *)
Fixpoint pass_events (tr : list event) : list event :=
  match tr with
  | [] => []
  | EvOpen n :: r => EvOpen n :: pass_events r
  | EvStatus n i true :: r => EvStatus n i true :: pass_events r
  | _ :: r => pass_events r
  end.

(** The events of the loop over the lines when no handler runs. *)
Definition quiet_event (e : event) : Prop :=
  match e with
  | EvUpsert _ | EvStatus _ _ false => True
  | _ => False
  end.

(** A line the loop body can process: four fields, and an id that is an
    integer unless the language is unset. *)
Definition line_ok (py_int : list N → option Z) (line : list N) : bool :=
  match parse_fields line with
  | inr (sent_id, lang, _, _) =>
      lang_unset lang || bool_decide (is_Some (py_int sent_id))
  | inl _ => false
  end.

(** The pass marks of the passes [sizes], latest first, when the last
    line of the file has number [last]. *)
Fixpoint pass_marks (last : nat) (sizes : list nat) : list event :=
  match sizes with
  | [] => []
  | n :: r => pass_marks last r ++ [EvStatus n last true; EvOpen n]
  end.

(** How often [gram] is a window of [n] characters of a text of [lang]. *)
Definition occurrences (n : nat) (gram lang : list N)
    (recs : list (list N * list N * list N)) : Z :=
  foldr (λ '(l, text, _) acc,
           (if bool_decide (l = lang)
            then Z.of_nat (length (filter (λ w, w = gram) (windows n text)))
            else 0) + acc)
        0 recs.

(** The characters [user] contributed in [lang]. *)
Definition score_total (user lang : list N)
    (recs : list (list N * list N * list N)) : Z :=
  foldr (λ '(l, text, u) acc,
           (if bool_decide (u = user ∧ l = lang) then len text else 0) + acc)
        0 recs.

(** The number of [(language, n-gram)] entries of a buffer. *)
Definition entries (cnt : list (list N * list (list N * Z))) : Z :=
  foldr (λ '(_, d) acc, Z.of_nat (length d) + acc) 0 cnt.

(** ** The final database *)

(** The REAL arithmetic of sqlite, as far as the query of lines 263-283
    uses it: the conversion of an integer, the value bound for a decimal
    constant [m * 10^-e] of the module, the division by a divisor that is
    not zero, and the strict comparison. The properties below hold for
    any such arithmetic, IEEE doubles or exact rationals alike. *)
Class Real (F : Type) := {
  real_of_int : Z → F;
  real_of_decimal : Z → nat → F;
  real_div : F → F → F;
  real_gt : F → F → bool
}.

Section extract.
Context {F : Type} `{Real F}.

(** Lines 13-14. *)
Definition IDEOGRAM_NGRAM_FREQ_LIMIT : F := real_of_decimal 5 6.
Definition NGRAM_FREQ_LIMIT : F := real_of_decimal 1 5.

(** Lines 278-282: the [CASE] of the [WHERE] clause. *)
Definition freq_limit (lang : list N) : F :=
  if bool_decide (lang ∈ IDEOGRAM_LANGS)
  then IDEOGRAM_NGRAM_FREQ_LIMIT else NGRAM_FREQ_LIMIT.

(** Line 269, [CAST(hit AS FLOAT) / lang_ngram_tots.tot]: a division by
    zero is [NULL]. *)
Definition percent (hit tot : Z) : option F :=
  if bool_decide (tot = 0) then None
  else Some (real_div (real_of_int hit) (real_of_int tot)).

(** Lines 264-282 for one table: the rows [(gram, lang, hit, percent)]
    that the [WHERE] clause keeps; a [NULL] comparison keeps nothing. *)
Definition key_grams (raw : table) : gmap (list N * list N) (Z * F) :=
  map_imap
    (λ k hit,
       match percent hit (lang_total raw k.2) with
       | Some p => if real_gt p (freq_limit k.2) then Some (hit, p) else None
       | None => None
       end)
    raw.

(** Lines 257-285: the tables in turn; a raw table that does not exist
    is an sqlite error. *)
Fixpoint key_tables (sizes : list nat) (raw : gmap nat table)
    (acc : gmap nat (gmap (list N * list N) (Z * F)))
  : exn + gmap nat (gmap (list N * list N) (Z * F)) :=
  match sizes with
  | [] => inr acc
  | n :: rest =>
      match raw !! n with
      | None => inl OperationalError
      | Some t => key_tables rest raw (<[n := key_grams t]> acc)
      end
  end.

(** Lines 289-296: [SELECT * FROM raw_db.users_langs WHERE total > ?]. *)
Definition key_users (raw_users : list (list N * list N * Z))
  : list (list N * list N * Z) :=
  filter (λ row, MIN_USER_CONTRIB_IN_LANG < row.2) raw_users.

Record final_db := FinalDB {
  final_grams : gmap nat (gmap (list N * list N) (Z * F));
  final_users_langs : list (list N * list N * Z)
}.

(** [TatodetectDB.extract_key_content_from]: the new database starts
    empty; the unique index of lines 297-302 on [(lang, user)] cannot be
    built over two rows with the same pair. *)
Definition extract_key_content_from (raw_g : gmap nat table)
    (raw_u : list (list N * list N * Z)) : exn + final_db :=
  let! g := key_tables
              (seq MIN_NGRAM_SIZE (MAX_NGRAM_SIZE + 1 - MIN_NGRAM_SIZE))
              raw_g ∅ in
  let users := key_users raw_u in
  if bool_decide (NoDup ((λ row, (row.1.2, row.1.1)) <$> users))
  then inr (FinalDB g users)
  else inl IntegrityError.
End extract.

(** Exact rationals as one such arithmetic, to run the extraction. *)
Global Instance Q_real : Real QArith_base.Q := {|
  real_of_int z := QArith_base.Qmake z 1;
  real_of_decimal m e := QArith_base.Qmake m (Pos.pow 10 (Pos.of_nat e));
  real_div := QArith_base.Qdiv;
  real_gt x y := negb (QArith_base.Qle_bool x y)
|}.

(** ** The tags file and the command line *)

(** [sentence_id, tag = fields]: the list must have exactly two items,
    otherwise the unpacking raises [ValueError]. *)
Definition unpack2 (fields : list (list N)) : exn + (list N * list N) :=
  match fields with
  | [a; b] => inr (a, b)
  | _ => inl ValueError
  end.

(** Lines 358-360 for one line of the file; [tagged] is the set built
    so far. *)
Definition tag_line (py_int : list N → option Z) (tag_name line : list N)
    (tagged : gset Z) : exn + gset Z :=
  let! p := unpack2 (split TAB (rstrip line)) in
  if bool_decide (p.2 = tag_name) then
    match py_int p.1 with
    | Some id => inr ({[id]} ∪ tagged)
    | None => inl ValueError
    end
  else inr tagged.

(** Line 357. The set is updated in place, so an exception leaves the
    ids added before it: the loop returns the set together with the
    exception that stopped it, if any. *)
Fixpoint for_tag_lines (py_int : list N → option Z) (tag_name : list N)
    (lines : list (list N)) (tagged : gset Z) : gset Z * option exn :=
  match lines with
  | [] => (tagged, None)
  | line :: rest =>
      match tag_line py_int tag_name line tagged with
      | inr tagged' => for_tag_lines py_int tag_name rest tagged'
      | inl e => (tagged, Some e)
      end
  end.

(** The files that can be read, by path, as their lines. *)
Abbreviation files := (list N → option (list (list N))).

(** [open(path, "r", encoding="utf-8")]: [None] is not a path, and a
    path without a file cannot be opened. *)
Definition open (fs : files) (path : option (list N))
  : exn + list (list N) :=
  match path with
  | None => inl TypeError
  | Some p =>
      match fs p with
      | Some lines => inr lines
      | None => inl FileNotFoundError
      end
  end.

(** Lines 339-364. The handler catches [IndexError] only and then
    returns the set as it is. *)
Definition get_sentences_with_tag (fs : files) (py_int : list N → option Z)
    (tags_path : option (list N)) (tag_name : list N) : exn + gset Z :=
  match open fs tags_path with
  | inl IndexError => inr ∅
  | inl e => inl e
  | inr lines =>
      match for_tag_lines py_int tag_name lines ∅ with
      | (tagged, None) => inr tagged
      | (tagged, Some IndexError) => inr tagged
      | (_, Some e) => inl e
      end
  end.

(** A line of the tags file that lines 358-360 process without an
    exception: two fields, and an integer id when the tag is the one
    looked for. *)
Definition tag_line_ok (py_int : list N → option Z) (tag_name line : list N)
  : bool :=
  match split TAB (rstrip line) with
  | [sentence_id; tag] =>
      if bool_decide (tag = tag_name) then bool_decide (is_Some (py_int sentence_id))
      else true
  | _ => false
  end.

(** How a run of the script ends: [sys.exit(code)], an uncaught
    exception, or the final database. *)
Inductive outcome (F : Type) : Type :=
  | Exit (code : Z)
  | Raised (e : exn)
  | Done (fin : @final_db F).
Arguments Exit {F} code.
Arguments Raised {F} e.
Arguments Done {F} fin.

(** Lines 384-415, with [sys.argv] as a list of strings. The database
    files are values here; they are taken to be other files than the two
    that are read. The corpus is opened by [count] (line 99). *)
Definition main {F : Type} `{Real F} (fs : files)
    (py_int : list N → option Z) (sys_platform : platform)
    (ru_maxrss : nat → Z) (argv : list (list N)) : outcome F :=
  let max_memory := 500 in
  match argv with
  | _ :: sentences_detailed_path :: tatodetect_db_path :: rest =>
      let tags_path := head rest in
      let run :=
        let! sentence_blacklist :=
          get_sentences_with_tag fs py_int tags_path (py "@change flag") in
        let! sentences_detailed := open fs (Some sentences_detailed_path) in
        let! σ := count py_int sys_platform ru_maxrss sentences_detailed
                    sentence_blacklist max_memory in
        extract_key_content_from (raw_grams σ) (raw_users_langs σ) in
      match run with
      | inr fin => Done fin
      | inl e => Raised e
      end
  | _ => Exit 1
  end.

(** ** Sample inputs *)

(** The three-sentence corpus of the end-to-end scenario. *)
Definition corpus3 : list (list N) :=
  [py "1	eng	ab	u1"; py "2	eng	ab	u1"; py "3	\N	xx	u2"].

(** A host where memory never reaches the ceiling. *)
Definition quiet : nat → Z := λ _, 0.

(** A host where memory is over the ceiling from the start. *)
Definition eager : nat → Z := λ _, 1000000.

(** A host where memory is over the ceiling at the first reading only. *)
Definition spike : nat → Z := λ i, if i is O then 1000000 else 0.

(** A line with three fields only, and one whose id is not a number. *)
Definition short_line : list N := py "7	eng	ab".
Definition bad_id_line : list N := py "x7	eng	ab	u1".

(** A raw database with a table for n = 2 whose language total is
    100000, and two contributors at and just above the threshold. *)
Definition sample_table : table :=
  <[(py "ab", py "eng") := 1]> (<[(py "cd", py "eng") := 99999]> ∅).
Definition sample_grams : gmap nat table := <[2%nat := sample_table]> init_grams.
Definition sample_users : list (list N * list N * Z) :=
  [(py "u1", py "eng", 100); (py "u2", py "eng", 101)].

(** A tags file, and a file system with the corpus and the tags file. *)
Definition tags3 : list (list N) :=
  [py "2	@change flag"; py "x	OK"; py "5	@change flag"].
Definition sample_fs : files := λ p,
  if bool_decide (p = py "sentences.csv") then Some corpus3
  else if bool_decide (p = py "tags.csv") then Some tags3
  else None.
Definition sample_argv : list (list N) :=
  [py "generate.py"; py "sentences.csv"; py "ngrams.db"; py "tags.csv"].

(** ** Algebra of the upsert *)

Lemma upsert_row_lookup (ngram lang : list N) (hits : Z) (t : table) k :
  upsert_row ngram lang hits t !! k =
    if decide ((ngram, lang) = k)
    then Some (from_option (λ hit, hit + hits) hits (t !! (ngram, lang)))
    else t !! k.
Proof.
  unfold upsert_row. destruct (t !! (ngram, lang)) eqn:E;
    rewrite lookup_insert; by case_decide.
Qed.

Lemma upsert_row_comm (g1 l1 : list N) (h1 : Z) (g2 l2 : list N) (h2 : Z)
    (t : table) :
  upsert_row g1 l1 h1 (upsert_row g2 l2 h2 t)
  = upsert_row g2 l2 h2 (upsert_row g1 l1 h1 t).
Proof.
  apply map_eq; intros k. rewrite !upsert_row_lookup.
  repeat case_decide; simplify_eq; try done.
  destruct (t !! _); simpl; f_equal; lia.
Qed.

Lemma upsert_row_add (g l : list N) (h1 h2 : Z) (t : table) :
  upsert_row g l h2 (upsert_row g l h1 t) = upsert_row g l (h1 + h2) t.
Proof.
  apply map_eq; intros k. rewrite !upsert_row_lookup.
  repeat case_decide; simplify_eq; try done.
  destruct (t !! _); simpl; f_equal; lia.
Qed.

Lemma upsert_dict_row (lang : list N) (d : list (list N * Z))
    (g l : list N) (h : Z) (t : table) :
  upsert_dict lang d (upsert_row g l h t)
  = upsert_row g l h (upsert_dict lang d t).
Proof.
  revert t. induction d as [|[ng v] d IH]; intros t; simpl; [done|].
  by rewrite upsert_row_comm, IH.
Qed.

Lemma upsert_hits_row (cnt : list (list N * list (list N * Z)))
    (g l : list N) (h : Z) (t : table) :
  _upsert_ngram_hits cnt (upsert_row g l h t)
  = upsert_row g l h (_upsert_ngram_hits cnt t).
Proof.
  revert t. induction cnt as [|[lang d] cnt IH]; intros t; simpl; [done|].
  fold (upsert_dict lang d (upsert_row g l h t)).
  fold (upsert_dict lang d t).
  rewrite upsert_dict_row. apply IH.
Qed.

Lemma upsert_dict_incr (lang : list N) (d : list (list N * Z))
    (ngram : list N) (t : table) :
  upsert_dict lang (dict_set d ngram (default 0 (dict_get d ngram) + 1)) t
  = upsert_row ngram lang 1 (upsert_dict lang d t).
Proof.
  revert t. induction d as [|[k v] d IH]; intros t; simpl; [done|].
  case_decide; simplify_eq; simpl.
  - by rewrite <- upsert_dict_row, upsert_row_add.
  - apply IH.
Qed.

(** Counting one more window in the buffer and then writing the buffer
    is writing the buffer and then one more hit. *)
Lemma upsert_hits_count_ngram (lang ngram : list N)
    (cnt : list (list N * list (list N * Z))) (tot : Z) (t : table) :
  _upsert_ngram_hits (count_ngram lang ngram (cnt, tot)).1 t
  = upsert_row ngram lang 1 (_upsert_ngram_hits cnt t).
Proof.
  unfold count_ngram; cbn [fst].
  revert t. induction cnt as [|[l d] cnt IH]; intros t; simpl.
  - done.
  - case_decide; simplify_eq; simpl.
    + fold (upsert_dict lang (dict_set d ngram (default 0 (dict_get d ngram) + 1)) t).
      fold (upsert_dict lang d t).
      by rewrite upsert_dict_incr, upsert_hits_row.
    + apply IH.
Qed.

Lemma hit_records_app (n : nat) (r1 r2 : list (list N * list N * list N)) (t : table) :
  hit_records n (r1 ++ r2) t = hit_records n r2 (hit_records n r1 t).
Proof. apply foldl_app. Qed.

Lemma add_scores_app (r1 r2 : list (list N * list N * list N))
    (sc : list ((list N * list N) * Z)) :
  add_scores (r1 ++ r2) sc = add_scores r2 (add_scores r1 sc).
Proof. apply foldl_app. Qed.

Lemma upsert_hits_count_text (n : nat) (lang text : list N)
    (cnt : list (list N * list (list N * Z))) (tot : Z) (t : table) :
  _upsert_ngram_hits (count_text n lang text (cnt, tot)).1 t
  = hit_windows n lang text (_upsert_ngram_hits cnt t).
Proof.
  unfold count_text, hit_windows, windows.
  generalize (range (len text - Z.of_nat n + 1)) as idx.
  intros idx. revert cnt tot.
  induction idx as [|i idx IH]; intros cnt tot; simpl; [done|].
  destruct (count_ngram lang (slice text i (i + n)) (cnt, tot))
    as [cnt' tot'] eqn:E.
  pose proof (upsert_hits_count_ngram lang (slice text i (i + n)) cnt tot t)
    as H.
  rewrite E in H; simpl in H. by rewrite IH, H.
Qed.

Lemma upsert_hits_accumulate_from (n : nat)
    (recs : list (list N * list N * list N))
    (cnt : list (list N * list (list N * Z))) (tot : Z) (t : table) :
  _upsert_ngram_hits
    (foldl (λ acc '(lang, text, _), count_text n lang text acc) (cnt, tot) recs).1 t
  = hit_records n recs (_upsert_ngram_hits cnt t).
Proof.
  revert cnt tot. induction recs as [|[[lang text] user] recs IH];
    intros cnt tot; simpl; [done|].
  destruct (count_text n lang text (cnt, tot)) as [cnt' tot'] eqn:E.
  pose proof (upsert_hits_count_text n lang text cnt tot t) as H.
  rewrite E in H; simpl in H. by rewrite IH, H.
Qed.

Lemma upsert_hits_accumulate (n : nat)
    (recs : list (list N * list N * list N)) (t : table) :
  _upsert_ngram_hits (accumulate n recs) t = hit_records n recs t.
Proof. apply (upsert_hits_accumulate_from n recs [] 0 t). Qed.

Lemma pass_rel_refl n σ : pass_rel n [] σ σ.
Proof.
  split; try done.
  - unfold view. by destruct (raw_grams σ !! n).
  - by case_bool_decide.
Qed.

Lemma pass_rel_trans n r1 r2 σ1 σ2 σ3 :
  pass_rel n r1 σ1 σ2 → pass_rel n r2 σ2 σ3 → pass_rel n (r1 ++ r2) σ1 σ3.
Proof.
  intros [V1 O1 S1 U1] [V2 O2 S2 U2]. split.
  - rewrite V2, V1. destruct (view n σ1); simpl; [|done].
    by rewrite hit_records_app.
  - intros m Hm. by rewrite O2, O1.
  - rewrite S2, S1. case_bool_decide; [|done]. by rewrite add_scores_app.
  - by rewrite U2, U1.
Qed.

Lemma upsert_table_view n σ σ' :
  upsert_table n σ = inr σ' →
  raw_grams σ' !! n = view n σ
  ∧ (∀ m, m ≠ n → raw_grams σ' !! m = raw_grams σ !! m)
  ∧ tot_ngrams σ' = tot_ngrams σ
  ∧ peak_tot_ngrams σ' = peak_tot_ngrams σ
  ∧ user_lang_score σ' = user_lang_score σ
  ∧ lang_ngram_cnt σ' = lang_ngram_cnt σ
  ∧ raw_users_langs σ' = raw_users_langs σ
  ∧ probes σ' = probes σ
  ∧ trace σ' = EvUpsert n :: trace σ.
Proof.
  unfold upsert_table, view. destruct (raw_grams σ !! n) as [t|] eqn:E; [|done].
  intros [= <-]; simpl. rewrite lookup_insert_eq. split_and!; try done.
  intros m Hm. by rewrite lookup_insert_ne.
Qed.

Lemma flush_pass_rel n σ σ' : flush n σ = inr σ' → pass_rel n [] σ σ'.
Proof.
  unfold flush. destruct (upsert_table n σ) as [e|σ1] eqn:E; [done|].
  simpl. intros [= <-].
  apply upsert_table_view in E as (V & O & _ & _ & S & _ & U & _).
  split; simpl; try done.
  - unfold view at 1; simpl. rewrite V.
    by destruct (view n σ).
  - by case_bool_decide.
Qed.

(** ** Totals per language *)

Lemma lang_total_empty (lang : list N) : lang_total ∅ lang = 0.
Proof. apply map_fold_empty. Qed.

Lemma lang_total_upsert_row (g l : list N) (h : Z) (t : table)
    (lang : list N) :
  lang_total (upsert_row g l h t) lang
  = lang_total t lang + (if bool_decide (l = lang) then h else 0).
Proof.
  assert (∀ (j1 j2 : list N * list N) (z1 z2 y : Z),
            (if bool_decide (j1.2 = lang)
             then (if bool_decide (j2.2 = lang) then y + z2 else y) + z1
             else if bool_decide (j2.2 = lang) then y + z2 else y)
            = (if bool_decide (j2.2 = lang)
               then (if bool_decide (j1.2 = lang) then y + z1 else y) + z2
               else if bool_decide (j1.2 = lang) then y + z1 else y)) as Hc.
  { intros. repeat case_bool_decide; lia. }
  unfold upsert_row, lang_total.
  destruct (t !! (g, l)) as [hit|] eqn:E.
  - rewrite <- insert_delete_eq.
    rewrite map_fold_insert_L; [|by intros; apply Hc|by rewrite lookup_delete_eq].
    rewrite (map_fold_delete_L _ _ (g, l) hit t); [|by intros; apply Hc|done].
    simpl. case_bool_decide; lia.
  - rewrite map_fold_insert_L; [|by intros; apply Hc|done].
    simpl. case_bool_decide; lia.
Qed.

Lemma length_windows (n : nat) (text : list N) :
  Z.of_nat (length (windows n text)) = Z.max 0 (len text - Z.of_nat n + 1).
Proof. unfold windows, range. rewrite length_fmap, length_seq. lia. Qed.

Lemma lang_total_hit_windows (n : nat) (l text : list N) (t : table)
    (lang : list N) :
  lang_total (hit_windows n l text t) lang
  = lang_total t lang
    + (if bool_decide (l = lang)
       then Z.max 0 (len text - Z.of_nat n + 1) else 0).
Proof.
  rewrite <- length_windows. unfold hit_windows.
  generalize (windows n text) as ws. intros ws. revert t.
  induction ws as [|w ws IH]; intros t; simpl.
  - case_bool_decide; lia.
  - rewrite IH, lang_total_upsert_row. case_bool_decide; lia.
Qed.

Lemma lang_total_hit_records (n : nat)
    (recs : list (list N * list N * list N)) (t : table) (lang : list N) :
  lang_total (hit_records n recs t) lang
  = lang_total t lang + windows_total n lang recs.
Proof.
  revert t. induction recs as [|[[l text] user] recs IH]; intros t; simpl.
  - lia.
  - rewrite IH, lang_total_hit_windows. lia.
Qed.

(** Every key of a table of windows of [n] characters has [n] characters. *)
Lemma length_slice (text : list N) (i n : nat) :
  (i + n ≤ length text)%nat → length (slice text i (i + n)) = n.
Proof. intros H. unfold slice. rewrite length_take, length_drop. lia. Qed.

Lemma windows_size (n : nat) (text w : list N) :
  w ∈ windows n text → length w = n.
Proof.
  unfold windows, range. intros (i & -> & Hi)%list_elem_of_fmap.
  apply elem_of_seq in Hi. apply length_slice. unfold len in Hi. lia.
Qed.

Lemma hit_records_size (n : nat) (recs : list (list N * list N * list N))
    (t : table) :
  (∀ g l h, t !! (g, l) = Some h → length g = n) →
  ∀ g l h, hit_records n recs t !! (g, l) = Some h → length g = n.
Proof.
  revert t. induction recs as [|[[lang text] user] recs IH]; intros t Ht;
    simpl; [done|].
  apply IH. unfold hit_windows.
  pose proof (windows_size n text) as Hw. revert Hw.
  generalize (windows n text) as ws. intros ws. revert t Ht.
  induction ws as [|w ws IHw]; intros t Ht Hw; simpl; [done|].
  apply IHw.
  - intros g l h. rewrite upsert_row_lookup. case_decide; simplify_eq.
    + intros _. apply Hw. by left.
    + apply Ht.
  - intros w' Hw'. apply Hw. by right.
Qed.

Lemma pass_rel_same n σ σ' :
  lang_ngram_cnt σ' = lang_ngram_cnt σ →
  raw_grams σ' = raw_grams σ →
  user_lang_score σ' = user_lang_score σ →
  raw_users_langs σ' = raw_users_langs σ →
  pass_rel n [] σ σ'.
Proof.
  intros C G S U. split; try done.
  - unfold view. rewrite C, G. by destruct (raw_grams σ !! n).
  - by rewrite G.
  - by case_bool_decide.
Qed.

Section count_facts.
Variable py_int : list N → option Z.
Variable sys_platform : platform.
Variable ru_maxrss : nat → Z.
Variable sentences_detailed : list (list N).
Variable sentence_blacklist : gset Z.
Variable max_memory : Z.

Local Abbreviation fif := (flush_if_full sys_platform ru_maxrss max_memory).
Local Abbreviation body :=
  (loop_body py_int sys_platform ru_maxrss sentence_blacklist max_memory).
Local Abbreviation lines_loop :=
  (for_lines py_int sys_platform ru_maxrss sentence_blacklist max_memory).
Local Abbreviation pass :=
  (count_pass py_int sys_platform ru_maxrss sentences_detailed
     sentence_blacklist max_memory).
Local Abbreviation sizes_loop :=
  (for_sizes py_int sys_platform ru_maxrss sentences_detailed
     sentence_blacklist max_memory).
Local Abbreviation run :=
  (count py_int sys_platform ru_maxrss sentences_detailed
     sentence_blacklist max_memory).
Local Abbreviation rec_of := (record_of py_int sentence_blacklist).
Local Abbreviation recs_of := (records py_int sentence_blacklist).

Lemma flush_if_full_pass_rel n σ σ' :
  fif n σ = inr σ' → pass_rel n [] σ σ'.
Proof.
  unfold flush_if_full.
  destruct (peak_tot_ngrams σ) as [peak|].
  - case_bool_decide; [apply flush_pass_rel|].
    intros [= <-]. apply pass_rel_refl.
  - destruct (get_peak_memory_usage _ _) as [m|]; [|done].
    case_bool_decide.
    + intros HF%flush_pass_rel.
      apply (pass_rel_trans n [] [] σ (probed σ) σ'); [|done].
      by apply pass_rel_same.
    + intros [= <-]. by apply pass_rel_same.
Qed.

Lemma print_status_same i n force σ :
  tot_ngrams (_print_status i n force σ) = tot_ngrams σ
  ∧ peak_tot_ngrams (_print_status i n force σ) = peak_tot_ngrams σ
  ∧ user_lang_score (_print_status i n force σ) = user_lang_score σ
  ∧ lang_ngram_cnt (_print_status i n force σ) = lang_ngram_cnt σ
  ∧ raw_grams (_print_status i n force σ) = raw_grams σ
  ∧ raw_users_langs (_print_status i n force σ) = raw_users_langs σ
  ∧ probes (_print_status i n force σ) = probes σ.
Proof. unfold _print_status. by destruct (_ || _). Qed.

Lemma print_status_pass_rel i n force σ :
  pass_rel n [] σ (_print_status i n force σ).
Proof.
  destruct (print_status_same i n force σ) as (_ & _ & S & C & G & U & _).
  by apply pass_rel_same.
Qed.

Lemma process_line_pass_rel n i line σ σ' :
  process_line py_int sys_platform ru_maxrss sentence_blacklist max_memory
    n i line σ = inr σ' →
  pass_rel n (option_list (rec_of line)) σ σ'.
Proof.
  unfold process_line, record_of.
  destruct (parse_fields line) as [e|[[[sent_id lang] text] user]].
  { destruct e; try done. intros [= <-]. by apply pass_rel_same. }
  destruct (lang_unset lang). { intros [= <-]. apply pass_rel_refl. }
  destruct (py_int sent_id) as [id|]; [|done].
  case_bool_decide. { intros [= <-]. apply pass_rel_refl. }
  set (σ1 := if bool_decide (n = MIN_NGRAM_SIZE) then _ else σ).
  assert (lang_ngram_cnt σ1 = lang_ngram_cnt σ ∧ tot_ngrams σ1 = tot_ngrams σ
          ∧ raw_grams σ1 = raw_grams σ
          ∧ raw_users_langs σ1 = raw_users_langs σ) as (C1 & T1 & G1 & U1).
  { unfold σ1. by case_bool_decide. }
  rewrite C1, T1.
  destruct (count_text n lang text (lang_ngram_cnt σ, tot_ngrams σ))
    as [cnt tot] eqn:E.
  intros F%flush_if_full_pass_rel. simpl.
  replace [(lang, text, user)] with ([(lang, text, user)] ++ []) by done.
  eapply pass_rel_trans; [|exact F].
  split; simpl.
  - unfold view; simpl. rewrite G1.
    destruct (raw_grams σ !! n) as [t|]; simpl; [|done]. f_equal.
    pose proof (upsert_hits_count_text n lang text
                  (lang_ngram_cnt σ) (tot_ngrams σ) t) as H'.
    by rewrite E in H'.
  - intros m _. by rewrite G1.
  - unfold σ1. by case_bool_decide.
  - done.
Qed.

Lemma loop_body_pass_rel n i line σ σ' :
  body n i line σ = inr σ' →
  pass_rel n (option_list (rec_of line)) σ σ'.
Proof.
  unfold loop_body. intros H%process_line_pass_rel.
  apply (pass_rel_trans n [] _ σ _ σ' (print_status_pass_rel i n false σ) H).
Qed.

Lemma for_lines_pass_rel n i lines σ σ' :
  lines_loop n i lines σ = inr σ' → pass_rel n (recs_of lines) σ σ'.
Proof.
  revert i σ. induction lines as [|line lines IH]; intros i σ; simpl.
  - intros [= <-]. apply pass_rel_refl.
  - destruct (body n i line σ) as [e|σ1] eqn:E; [done|]. simpl.
    intros H%IH. apply loop_body_pass_rel in E.
    unfold records; simpl.
    destruct (record_of _ _ line) as [r|]; simpl in *.
    + by apply (pass_rel_trans n [r] _ σ σ1 σ').
    + by apply (pass_rel_trans n [] _ σ σ1 σ').
Qed.

Lemma count_pass_spec n σ σ' :
  pass n σ = inr σ' →
  raw_grams σ' !! n
    = hit_records n (recs_of sentences_detailed) <$> raw_grams σ !! n
  ∧ (∀ m, m ≠ n → raw_grams σ' !! m = raw_grams σ !! m)
  ∧ user_lang_score σ' =
      (if bool_decide (n = MIN_NGRAM_SIZE)
       then add_scores (recs_of sentences_detailed) (user_lang_score σ)
       else user_lang_score σ)
  ∧ raw_users_langs σ' = raw_users_langs σ.
Proof.
  unfold count_pass.
  destruct (lines_loop n 0 _ _) as [e|σ1] eqn:E; [done|]. simpl.
  destruct sentences_detailed as [|l0 ls] eqn:EL; [done|]. rewrite <- EL in *.
  intros (V & O & _ & _ & S & _ & U & _)%upsert_table_view.
  apply for_lines_pass_rel in E.
  pose proof (pass_rel_trans n _ [] _ _ _ E
                (print_status_pass_rel (length sentences_detailed - 1) n true σ1))
    as [V1 O1 S1 U1].
  rewrite app_nil_r in V1, S1.
  rewrite V, V1, S, S1, U, U1. unfold view; simpl. split_and!; try done.
  - by destruct (raw_grams σ !! n).
  - intros m Hm. by rewrite O, O1.
Qed.

Lemma for_sizes_spec sizes σ σ' :
  sizes_loop sizes σ = inr σ' →
  NoDup sizes →
  (∀ n, n ∈ sizes →
     raw_grams σ' !! n
       = hit_records n (recs_of sentences_detailed) <$> raw_grams σ !! n)
  ∧ (∀ m, m ∉ sizes → raw_grams σ' !! m = raw_grams σ !! m)
  ∧ user_lang_score σ' =
      (if bool_decide (MIN_NGRAM_SIZE ∈ sizes)
       then add_scores (recs_of sentences_detailed) (user_lang_score σ)
       else user_lang_score σ)
  ∧ raw_users_langs σ' = raw_users_langs σ.
Proof.
  revert σ. induction sizes as [|n sizes IH]; intros σ; simpl.
  { intros [= <-] _. split_and!; try done. intros n Hn. by inversion Hn. }
  destruct (pass n σ) as [e|σ1] eqn:E; [done|]. simpl.
  intros H [Hn ND]%NoDup_cons.
  apply count_pass_spec in E as (G1 & O1 & S1 & U1).
  destruct (IH _ H ND) as (G & O & S & U). split_and!.
  - intros m [->|Hm]%elem_of_cons.
    + by rewrite O, G1.
    + rewrite G by done. rewrite O1; [done|]. by intros ->.
  - intros m Hm. rewrite not_elem_of_cons in Hm. destruct Hm as [Hm1 Hm2].
    by rewrite O, O1.
  - rewrite S, S1.
    repeat case_bool_decide; try done; exfalso; set_unfold; naive_solver.
  - by rewrite U, U1.
Qed.

Lemma ngram_sizes_eq : ngram_sizes = [5; 4; 3; 2]%nat.
Proof. reflexivity. Qed.

Lemma ngram_sizes_elem (n : nat) :
  n ∈ ngram_sizes ↔ (MIN_NGRAM_SIZE ≤ n ≤ MAX_NGRAM_SIZE)%nat.
Proof.
  rewrite ngram_sizes_eq. unfold MIN_NGRAM_SIZE, MAX_NGRAM_SIZE.
  rewrite !elem_of_cons, elem_of_nil. lia.
Qed.

Lemma init_grams_lookup n :
  init_grams !! n = if bool_decide (n ∈ ngram_sizes) then Some ∅ else None.
Proof.
  rewrite ngram_sizes_eq. unfold init_grams; simpl.
  case_bool_decide as H.
  - repeat (apply elem_of_cons in H as [->|H]; [done|]). by inversion H.
  - repeat (rewrite not_elem_of_cons in H; destruct H as [? H]).
    by rewrite !lookup_insert_ne, lookup_empty.
Qed.

(** The database a completed run leaves: for each size the table of all
    windows of all records, and one row per scored pair. *)
Lemma count_spec σ :
  run = inr σ →
  (∀ n, raw_grams σ !! n =
        if bool_decide (n ∈ ngram_sizes)
        then Some (hit_records n (recs_of sentences_detailed) ∅) else None)
  ∧ raw_users_langs σ =
      (λ '((user, lang), hit), (user, lang, hit))
        <$> add_scores (recs_of sentences_detailed) [].
Proof.
  unfold count.
  destruct (sizes_loop ngram_sizes initial) as [e|σ1] eqn:E; [done|]. simpl.
  intros [= <-]; simpl.
  apply for_sizes_spec in E as (G & O & S & U).
  2:{ rewrite ngram_sizes_eq. repeat (apply NoDup_cons; split; [set_solver|]).
      apply NoDup_nil_2. }
  split.
  - intros n. destruct (decide (n ∈ ngram_sizes)) as [Hn|Hn].
    + rewrite (G n Hn); simpl. rewrite init_grams_lookup.
      by rewrite !bool_decide_eq_true_2.
    + rewrite (O n Hn); simpl. rewrite init_grams_lookup.
      by rewrite !bool_decide_eq_false_2.
  - by rewrite U, S.
Qed.

(** C1. When the counting phase completes, the hit counts of table
    [grams{n}] for one language sum to the number of windows of [n]
    characters, [max(0, len(text) - n + 1)] per sentence, over the
    sentences of this language that were let through; and every n-gram
    of that table has [n] characters. *)
Theorem count_hits_sum_windows σ n lang :
  run = inr σ →
  n ∈ ngram_sizes →
  ∃ t : table,
    raw_grams σ !! n = Some t
    ∧ lang_total t lang = windows_total n lang (recs_of sentences_detailed)
    ∧ ∀ g l h, t !! (g, l) = Some h → length g = n.
Proof.
  intros [G _]%count_spec Hn. eexists. split_and!.
  - rewrite G. by rewrite bool_decide_eq_true_2.
  - by rewrite lang_total_hit_records, lang_total_empty.
  - apply hit_records_size. intros g l h. by rewrite lookup_empty.
Qed.

(** ** Lines that end the run *)

Lemma unpack4_short (fields : list (list N)) :
  (length fields < 4)%nat → unpack4 fields = inl ValueError.
Proof.
  intros H. unfold unpack4.
  destruct fields as [|a [|b [|c [|d ?]]]]; simpl in *; try done; lia.
Qed.

Lemma unpack4_long (a b c d : list N) (rest : list (list N)) :
  unpack4 (a :: b :: c :: d :: rest) = inr (a, b, c, d).
Proof. reflexivity. Qed.

Lemma parse_fields_not_IndexError (line : list N) :
  parse_fields line ≠ inl IndexError.
Proof.
  unfold parse_fields, unpack4.
  by destruct (take 4 _) as [|a [|b [|c [|d [|? ?]]]]].
Qed.

Lemma for_lines_raises n i lines σ line :
  line ∈ lines →
  (∀ j σ', raises (body n j line σ')) →
  raises (lines_loop n i lines σ).
Proof.
  intros Hin Hr. revert i σ.
  induction lines as [|l lines IH]; intros i σ; [by inversion Hin|].
  simpl. destruct (body n i l σ) as [e|σ1] eqn:E; [by exists e|]. simpl.
  apply elem_of_cons in Hin as [->|Hin].
  - destruct (Hr i σ) as [e He]. congruence.
  - by apply IH.
Qed.

Lemma count_raises_of_line line :
  line ∈ sentences_detailed →
  (∀ n j σ', raises (body n j line σ')) →
  raises run.
Proof.
  intros Hin Hr. unfold count. rewrite ngram_sizes_eq. cbn [for_sizes].
  unfold count_pass at 1.
  destruct (for_lines_raises 5 0 sentences_detailed
              (emit (EvOpen 5) (set_counting initial [] (tot_ngrams initial)))
              line Hin (Hr 5%nat)) as [e He].
  rewrite He. by exists e.
Qed.

(** A line with fewer than four tab-separated fields is not skipped: the
    unpacking raises [ValueError], which the handler of line 105 does not
    catch, and the run ends there. *)
Theorem short_line_raises line :
  line ∈ sentences_detailed →
  (length (split TAB (rstrip line)) < 4)%nat →
  (∀ n j σ, body n j line σ = inl ValueError) ∧ raises run.
Proof.
  intros Hin Hlen.
  assert (∀ n j σ, body n j line σ = inl ValueError) as Hb.
  { intros n j σ. unfold loop_body, process_line, parse_fields.
    by rewrite unpack4_short. }
  split; [done|]. apply (count_raises_of_line line Hin).
  intros n j σ'. exists ValueError. apply Hb.
Qed.

(** A line with four fields and a language, whose id is not an integer,
    raises [ValueError] at the blacklist test and ends the run. *)
Theorem bad_id_raises line sent_id lang text user :
  line ∈ sentences_detailed →
  parse_fields line = inr (sent_id, lang, text, user) →
  lang_unset lang = false →
  py_int sent_id = None →
  (∀ n j σ, body n j line σ = inl ValueError) ∧ raises run.
Proof.
  intros Hin Hp Hl Hi.
  assert (∀ n j σ, body n j line σ = inl ValueError) as Hb.
  { intros n j σ. unfold loop_body, process_line. by rewrite Hp, Hl, Hi. }
  split; [done|]. apply (count_raises_of_line line Hin).
  intros n j σ'. exists ValueError. apply Hb.
Qed.

Lemma count_empty :
  sentences_detailed = [] → run = inl UnboundLocalError.
Proof. intros ->. reflexivity. Qed.

(** ** The shape of one step *)

Lemma flush_inv n σ σ1 :
  flush n σ = inr σ1 →
  probes σ1 = probes σ
  ∧ peak_tot_ngrams σ1 = Some (tot_ngrams σ)
  ∧ tot_ngrams σ1 = 0
  ∧ lang_ngram_cnt σ1 = []
  ∧ trace σ1 = EvUpsert n :: trace σ.
Proof.
  unfold flush. destruct (upsert_table n σ) as [e|σ2] eqn:E; [done|].
  simpl. intros [= <-]; simpl.
  by apply upsert_table_view in E as (_ & _ & -> & _ & _ & _ & _ & -> & ->).
Qed.

Lemma flush_ok n σ :
  is_Some (raw_grams σ !! n) → ∃ σ1, flush n σ = inr σ1.
Proof.
  intros [t Ht]. unfold flush, upsert_table. rewrite Ht. simpl. eauto.
Qed.

Lemma fif_inv n σ σ1 :
  fif n σ = inr σ1 →
  (peak_tot_ngrams σ = None → probes σ1 = S (probes σ))
  ∧ (is_Some (peak_tot_ngrams σ) →
     probes σ1 = probes σ ∧ is_Some (peak_tot_ngrams σ1))
  ∧ (trace σ1 = trace σ ∨ trace σ1 = EvUpsert n :: trace σ).
Proof.
  unfold flush_if_full. destruct (peak_tot_ngrams σ) as [peak|] eqn:Ep.
  - case_bool_decide.
    + intros (-> & -> & _ & _ & ->)%flush_inv.
      split_and!; [done| |by right]. intros _. by split.
    + intros [= <-]. split_and!; [done| |by left]. intros _. by rewrite Ep.
  - destruct (get_peak_memory_usage _ _) as [m|]; [|done]. case_bool_decide.
    + intros (-> & -> & _ & _ & ->)%flush_inv.
      split_and!; [done|by intros [? ?]|by right].
    + intros [= <-]. split_and!; [done|by intros [? ?]|by left].
Qed.

Lemma fif_ok n σ :
  sys_platform ≠ OtherPlatform →
  is_Some (raw_grams σ !! n) →
  ∃ σ1, fif n σ = inr σ1.
Proof.
  intros HP Ht. unfold flush_if_full.
  destruct (peak_tot_ngrams σ) as [peak|].
  - case_bool_decide; [by apply flush_ok|eauto].
  - unfold get_peak_memory_usage. destruct sys_platform; try done.
    + case_bool_decide; [by apply flush_ok|eauto].
    + case_bool_decide; [by apply flush_ok|eauto].
Qed.

Lemma counted_fields n lang text user σ :
  peak_tot_ngrams (counted n lang text user σ) = peak_tot_ngrams σ
  ∧ probes (counted n lang text user σ) = probes σ
  ∧ raw_grams (counted n lang text user σ) = raw_grams σ
  ∧ trace (counted n lang text user σ) = trace σ.
Proof.
  unfold counted. destruct (count_text _ _ _ _) as [cnt tot].
  by case_bool_decide.
Qed.

Lemma process_line_cases n i line σ :
  match rec_of line with
  | Some (lang, text, user) =>
      process_line py_int sys_platform ru_maxrss sentence_blacklist max_memory
        n i line σ = fif n (counted n lang text user σ)
  | None =>
      process_line py_int sys_platform ru_maxrss sentence_blacklist max_memory
        n i line σ = inr σ
      ∨ raises (process_line py_int sys_platform ru_maxrss sentence_blacklist
                  max_memory n i line σ)
  end.
Proof.
  unfold record_of, process_line, counted.
  pose proof (parse_fields_not_IndexError line) as HI.
  destruct (parse_fields line) as [e|[[[sent_id lang] text] user]].
  { right. destruct e; try done; by eexists. }
  destruct (lang_unset lang); [by left|].
  destruct (py_int sent_id) as [id|]; [|right; by eexists].
  case_bool_decide; [by left|].
  case_bool_decide; simpl; by destruct (count_text _ _ _ _).
Qed.

(** ** Memory is read until the first flush of the run, never after *)

Lemma body_calibrated n i line σ σ1 :
  body n i line σ = inr σ1 →
  is_Some (peak_tot_ngrams σ) →
  probes σ1 = probes σ ∧ is_Some (peak_tot_ngrams σ1).
Proof.
  unfold loop_body. intros H Hp.
  destruct (print_status_same i n false σ) as (_ & P & _ & _ & _ & _ & B).
  pose proof (process_line_cases n i line (_print_status i n false σ)) as C.
  destruct (rec_of line) as [[[lang text] user]|].
  - rewrite C in H. apply fif_inv in H as (_ & H & _).
    destruct (counted_fields n lang text user (_print_status i n false σ))
      as (P' & B' & _).
    rewrite P', P, B', B in H. by apply H.
  - destruct C as [C|[e C]]; rewrite C in H; [|done].
    assert (σ1 = _print_status i n false σ) as -> by congruence.
    by rewrite P, B.
Qed.

Lemma for_lines_calibrated n i lines σ σ1 :
  lines_loop n i lines σ = inr σ1 →
  is_Some (peak_tot_ngrams σ) →
  probes σ1 = probes σ ∧ is_Some (peak_tot_ngrams σ1).
Proof.
  revert i σ. induction lines as [|l lines IH]; intros i σ; simpl.
  - by intros [= <-].
  - destruct (body n i l σ) as [e|σ2] eqn:E; [done|]. simpl. intros H Hp.
    destruct (body_calibrated _ _ _ _ _ E Hp) as [B P].
    destruct (IH _ _ H P) as [B' P']. split; [congruence|done].
Qed.

Lemma count_pass_calibrated n σ σ1 :
  pass n σ = inr σ1 →
  is_Some (peak_tot_ngrams σ) →
  probes σ1 = probes σ ∧ is_Some (peak_tot_ngrams σ1).
Proof.
  unfold count_pass.
  destruct (lines_loop n 0 _ _) as [e|σ2] eqn:E; [done|]. simpl.
  destruct sentences_detailed as [|l0 ls] eqn:EL; [done|]. rewrite <- EL in *.
  intros (_ & _ & _ & P & _ & _ & _ & B & _)%upsert_table_view Hp.
  destruct (print_status_same (length sentences_detailed - 1) n true σ2)
    as (_ & P2 & _ & _ & _ & _ & B2).
  destruct (for_lines_calibrated _ _ _ _ _ E Hp) as [B1 P1].
  rewrite P, P2, B, B2. split; [exact B1|exact P1].
Qed.

Lemma for_sizes_calibrated sizes σ σ1 :
  is_Some (peak_tot_ngrams σ) →
  sizes_loop sizes σ = inr σ1 →
  probes σ1 = probes σ ∧ is_Some (peak_tot_ngrams σ1).
Proof.
  revert σ. induction sizes as [|n sizes IH]; intros σ Hp; simpl.
  - by intros [= <-].
  - destruct (pass n σ) as [e|σ2] eqn:E; [done|]. simpl. intros H.
    destruct (count_pass_calibrated _ _ _ E Hp) as [B P].
    destruct (IH _ P H) as [B' P']. split; [congruence|done].
Qed.

(** ** A platform without memory readings *)

Lemma for_lines_other n i lines σ :
  sys_platform = OtherPlatform →
  peak_tot_ngrams σ = None →
  recs_of lines ≠ [] →
  raises (lines_loop n i lines σ).
Proof.
  intros HP. revert i σ. induction lines as [|l lines IH]; intros i σ Hp Hr;
    [done|].
  simpl. unfold loop_body.
  destruct (print_status_same i n false σ) as (_ & P & _).
  pose proof (process_line_cases n i l (_print_status i n false σ)) as C.
  unfold records in Hr; simpl in Hr.
  destruct (rec_of l) as [[[lang text] user]|]; simpl in Hr.
  - rewrite C. exists TypeError. unfold flush_if_full.
    destruct (counted_fields n lang text user (_print_status i n false σ))
      as (P' & _).
    rewrite P', P, Hp. unfold get_peak_memory_usage. by rewrite HP.
  - destruct C as [C|[e C]]; rewrite C; simpl; [|by exists e].
    apply IH; [by rewrite P|done].
Qed.

Lemma count_other_platform :
  sys_platform = OtherPlatform →
  recs_of sentences_detailed ≠ [] →
  raises run.
Proof.
  intros HP Hr. unfold count. rewrite ngram_sizes_eq. cbn [for_sizes].
  unfold count_pass at 1.
  destruct (for_lines_other 5 0 sentences_detailed
              (emit (EvOpen 5) (set_counting initial [] (tot_ngrams initial)))
              HP eq_refl Hr) as [e He].
  rewrite He. by exists e.
Qed.

(** ** When the run completes *)

Lemma process_line_skip n i line σ :
  line_ok py_int line = true →
  rec_of line = None →
  process_line py_int sys_platform ru_maxrss sentence_blacklist max_memory
    n i line σ = inr σ.
Proof.
  unfold line_ok, record_of, process_line. intros Hok Hr.
  destruct (parse_fields line) as [e|[[[sent_id lang] text] user]];
    [discriminate Hok|].
  destruct (lang_unset lang); [reflexivity|]. cbn [orb] in Hok.
  apply bool_decide_eq_true in Hok as [id Hid]. rewrite Hid in *.
  destruct (bool_decide (id ∈ sentence_blacklist));
    [reflexivity|discriminate Hr].
Qed.

Lemma body_ok n i line σ :
  line_ok py_int line = true →
  sys_platform ≠ OtherPlatform ∨ rec_of line = None →
  is_Some (raw_grams σ !! n) →
  ∃ σ1, body n i line σ = inr σ1.
Proof.
  unfold loop_body. intros Hok HP Ht.
  destruct (print_status_same i n false σ) as (_ & _ & _ & _ & G & _).
  pose proof (process_line_cases n i line (_print_status i n false σ)) as C.
  destruct (rec_of line) as [[[lang text] user]|] eqn:Er.
  - rewrite C. destruct HP as [HP|HP]; [|discriminate HP].
    apply fif_ok; [exact HP|].
    destruct (counted_fields n lang text user (_print_status i n false σ))
      as (_ & _ & G' & _).
    rewrite G', G. exact Ht.
  - rewrite (process_line_skip n i line _ Hok Er). eauto.
Qed.

Lemma line_not_ok_raises line :
  line_ok py_int line = false → ∀ n j σ, raises (body n j line σ).
Proof.
  unfold loop_body, line_ok, process_line. intros Hok n j σ.
  pose proof (parse_fields_not_IndexError line) as HI.
  destruct (parse_fields line) as [e|[[[sent_id lang] text] user]].
  { destruct e; try done; by eexists. }
  apply orb_false_iff in Hok as [-> Hi].
  apply bool_decide_eq_false in Hi.
  destruct (py_int sent_id) as [id|]; [|by eexists].
  destruct Hi. by eexists.
Qed.

Lemma pass_rel_table n recs σ σ1 :
  pass_rel n recs σ σ1 →
  is_Some (raw_grams σ !! n) → is_Some (raw_grams σ1 !! n).
Proof.
  intros [V _ _ _] [t Ht]. unfold view in V. rewrite Ht in V. simpl in V.
  destruct (raw_grams σ1 !! n); [eauto|done].
Qed.

Lemma for_lines_ok n i lines σ :
  (∀ l, l ∈ lines → line_ok py_int l = true) →
  sys_platform ≠ OtherPlatform ∨ recs_of lines = [] →
  is_Some (raw_grams σ !! n) →
  ∃ σ1, lines_loop n i lines σ = inr σ1.
Proof.
  revert i σ. induction lines as [|l lines IH]; intros i σ Hok HP Ht; simpl.
  { eauto. }
  assert (sys_platform ≠ OtherPlatform ∨ rec_of l = None) as HP1.
  { destruct HP as [HP|HP]; [by left|right].
    unfold records in HP; simpl in HP. by destruct (rec_of l). }
  assert (sys_platform ≠ OtherPlatform ∨ recs_of lines = []) as HP2.
  { destruct HP as [HP|HP]; [by left|right].
    unfold records in HP; simpl in HP. by destruct (rec_of l). }
  destruct (body_ok n i l σ) as [σ1 E]; [apply Hok; by left|done|done|].
  rewrite E. simpl. apply IH; [|done|].
  - intros l' Hl'. apply Hok. by right.
  - eapply pass_rel_table; [|exact Ht]. by eapply loop_body_pass_rel.
Qed.

Lemma count_pass_ok n σ :
  sentences_detailed ≠ [] →
  (∀ l, l ∈ sentences_detailed → line_ok py_int l = true) →
  sys_platform ≠ OtherPlatform ∨ recs_of sentences_detailed = [] →
  is_Some (raw_grams σ !! n) →
  ∃ σ1, pass n σ = inr σ1.
Proof.
  intros Hne Hok HP Ht. unfold count_pass.
  destruct (for_lines_ok n 0 sentences_detailed
              (emit (EvOpen n) (set_counting σ [] (tot_ngrams σ))) Hok HP Ht)
    as [σ1 E].
  rewrite E. simpl. destruct sentences_detailed as [|l0 ls] eqn:EL; [done|].
  rewrite <- EL in *.
  apply for_lines_pass_rel in E. apply pass_rel_table in E; [|exact Ht].
  destruct (print_status_same (length sentences_detailed - 1) n true σ1)
    as (_ & _ & _ & _ & G & _).
  unfold upsert_table. rewrite G. destruct E as [t ->]. eauto.
Qed.

Lemma for_sizes_ok sizes σ :
  sentences_detailed ≠ [] →
  (∀ l, l ∈ sentences_detailed → line_ok py_int l = true) →
  sys_platform ≠ OtherPlatform ∨ recs_of sentences_detailed = [] →
  (∀ n, n ∈ sizes → is_Some (raw_grams σ !! n)) →
  ∃ σ1, sizes_loop sizes σ = inr σ1.
Proof.
  intros Hne Hok HP. revert σ.
  induction sizes as [|n sizes IH]; intros σ Ht; simpl; [eauto|].
  destruct (count_pass_ok n σ Hne Hok HP) as [σ1 E]; [apply Ht; by left|].
  rewrite E. simpl. apply IH. intros m Hm.
  apply count_pass_spec in E as (G1 & O1 & _).
  destruct (decide (m = n)) as [->|Hmn].
  - rewrite G1. destruct (Ht n) as [t ->]; [by left|]. by eexists.
  - rewrite O1 by done. apply Ht. by right.
Qed.

(** The run completes exactly when the corpus has a line, every line can
    be processed (four fields, and an integer id unless the language is
    unset), and memory can be read or no record is let through. *)
Theorem count_completes_iff :
  (∃ σ, run = inr σ)
  ↔ sentences_detailed ≠ []
    ∧ (∀ l, l ∈ sentences_detailed → line_ok py_int l = true)
    ∧ (sys_platform = OtherPlatform → recs_of sentences_detailed = []).
Proof.
  split.
  - intros [σ H]. split_and!.
    + intros E. apply count_empty in E. congruence.
    + intros l Hl. destruct (line_ok py_int l) eqn:Hok; [done|].
      destruct (count_raises_of_line l Hl (line_not_ok_raises l Hok))
        as [e He]. congruence.
    + intros HP. destruct (recs_of sentences_detailed) as [|r rs] eqn:Er;
        [done|].
      destruct count_other_platform as [e He]; [done|by rewrite Er|].
      congruence.
  - intros (Hne & Hok & HP). unfold count.
    destruct (for_sizes_ok ngram_sizes initial Hne Hok) as [σ1 E].
    + destruct (decide (sys_platform = OtherPlatform)) as [HO|HO];
        [right; by apply HP|by left].
    + intros n Hn. simpl. rewrite init_grams_lookup.
      rewrite bool_decide_eq_true_2 by done. by eexists.
    + rewrite E. simpl. eauto.
Qed.

(** ** The passes, as the trace shows them *)

Lemma pass_events_quiet evs tr :
  Forall quiet_event evs → pass_events (evs ++ tr) = pass_events tr.
Proof.
  induction 1 as [|e evs He _ IH]; [done|]. simpl.
  destruct e as [?|? ? []|?|?]; done.
Qed.

Lemma quiet_not_skipped evs i :
  Forall quiet_event evs → EvSkipped i ∉ evs.
Proof.
  intros H Hin. rewrite Forall_forall in H. by apply H in Hin.
Qed.

Lemma print_status_trace i n σ :
  ∃ evs, trace (_print_status i n false σ) = evs ++ trace σ
         ∧ Forall quiet_event evs.
Proof.
  unfold _print_status. destruct (_ || _).
  - exists [EvStatus n i false]. split; [done|]. by repeat constructor.
  - by exists [].
Qed.

Lemma body_trace n i line σ σ1 :
  body n i line σ = inr σ1 →
  ∃ evs, trace σ1 = evs ++ trace σ ∧ Forall quiet_event evs.
Proof.
  unfold loop_body. intros H.
  destruct (print_status_trace i n σ) as (ev0 & T0 & Q0).
  pose proof (process_line_cases n i line (_print_status i n false σ)) as C.
  destruct (rec_of line) as [[[lang text] user]|].
  - rewrite C in H. apply fif_inv in H as (_ & _ & H).
    destruct (counted_fields n lang text user (_print_status i n false σ))
      as (_ & _ & _ & T').
    rewrite T', T0 in H. destruct H as [->| ->].
    + by exists ev0.
    + exists (EvUpsert n :: ev0). split; [done|]. by constructor.
  - destruct C as [C|[e C]]; rewrite C in H; [|done].
    assert (σ1 = _print_status i n false σ) as -> by congruence.
    by exists ev0.
Qed.

Lemma for_lines_trace n i lines σ σ1 :
  lines_loop n i lines σ = inr σ1 →
  ∃ evs, trace σ1 = evs ++ trace σ ∧ Forall quiet_event evs.
Proof.
  revert i σ. induction lines as [|l lines IH]; intros i σ; simpl.
  - intros [= <-]. by exists [].
  - destruct (body n i l σ) as [e|σ2] eqn:E; [done|]. simpl. intros H.
    apply body_trace in E as (ev1 & T1 & Q1).
    apply IH in H as (ev2 & T2 & Q2).
    exists (ev2 ++ ev1). split; [by rewrite T2, T1, app_assoc|].
    by apply Forall_app.
Qed.

Lemma count_pass_trace n σ σ1 :
  pass n σ = inr σ1 →
  ∃ evs, trace σ1
         = EvUpsert n :: EvStatus n (length sentences_detailed - 1) true
             :: evs ++ EvOpen n :: trace σ
         ∧ Forall quiet_event evs.
Proof.
  unfold count_pass.
  destruct (lines_loop n 0 _ _) as [e|σ2] eqn:E; [done|]. simpl.
  destruct sentences_detailed as [|l0 ls] eqn:EL; [done|]. rewrite <- EL in *.
  intros (_ & _ & _ & _ & _ & _ & _ & _ & T)%upsert_table_view.
  apply for_lines_trace in E as (evs & T2 & Q). exists evs. split; [|done].
  rewrite T. unfold _print_status. rewrite orb_true_r. simpl.
  by rewrite T2.
Qed.

Lemma for_sizes_trace sizes σ σ1 :
  sizes_loop sizes σ = inr σ1 →
  pass_events (trace σ1)
  = pass_marks (length sentences_detailed - 1) sizes ++ pass_events (trace σ)
  ∧ ((∀ i, EvSkipped i ∉ trace σ) → ∀ i, EvSkipped i ∉ trace σ1).
Proof.
  revert σ. induction sizes as [|n sizes IH]; intros σ; simpl.
  - by intros [= <-].
  - destruct (pass n σ) as [e|σ2] eqn:E; [done|]. simpl. intros H.
    apply count_pass_trace in E as (evs & T & Q).
    apply IH in H as [H1 H2]. split.
    + rewrite H1, T. simpl. rewrite pass_events_quiet by done. simpl.
      by rewrite <- app_assoc.
    + intros Hs. apply H2. intros i. rewrite T.
      rewrite !not_elem_of_cons, not_elem_of_app, not_elem_of_cons.
      split_and!; try done. by apply quiet_not_skipped.
Qed.

(** A completed run has opened and read the corpus four times, for n =
    5, 4, 3, 2 in this order, each time up to its last line; and it has
    never reported a skipped line: the handler of line 105 is dead. *)
Theorem count_four_passes σ :
  run = inr σ →
  rev (pass_events (trace σ))
  = [EvOpen 5; EvStatus 5 (length sentences_detailed - 1) true;
     EvOpen 4; EvStatus 4 (length sentences_detailed - 1) true;
     EvOpen 3; EvStatus 3 (length sentences_detailed - 1) true;
     EvOpen 2; EvStatus 2 (length sentences_detailed - 1) true]
  ∧ ∀ i, EvSkipped i ∉ trace σ.
Proof.
  unfold count.
  destruct (sizes_loop ngram_sizes initial) as [e|σ1] eqn:E; [done|]. simpl.
  intros [= <-]. simpl. apply for_sizes_trace in E as [H1 H2]. split.
  - rewrite H1. reflexivity.
  - apply H2. intros i. simpl. apply not_elem_of_nil.
Qed.

End count_facts.

(** On an empty corpus file the first pass ends with [line_id] unbound at
    line 140: [UnboundLocalError], whatever the other arguments. *)
Theorem empty_corpus_raises (py_int : list N → option Z) (P : platform)
    (ru : nat → Z) (bl : gset Z) (mm : Z) :
  count py_int P ru [] bl mm = inl UnboundLocalError.
Proof. by apply count_empty. Qed.

(** Where [get_peak_memory_usage] returns [None], the first record that
    is let through ends the run: [None >= max_memory] is a [TypeError]. *)
Theorem unsupported_platform_raises (py_int : list N → option Z)
    (ru : nat → Z) (corpus : list (list N)) (bl : gset Z) (mm : Z) :
  records py_int bl corpus ≠ [] →
  raises (count py_int OtherPlatform ru corpus bl mm).
Proof. intros H. by apply count_other_platform. Qed.

(** Calibration is a matter of the run, not of the pass: once
    [peak_tot_ngrams] is set, no later line of any later pass reads the
    memory usage again, and the target stays set. *)
Theorem calibrated_run_never_probes (py_int : list N → option Z)
    (P : platform) (ru : nat → Z) (corpus : list (list N)) (bl : gset Z)
    (mm : Z) (sizes : list nat) (σ σ1 : state) :
  is_Some (peak_tot_ngrams σ) →
  for_sizes py_int P ru corpus bl mm sizes σ = inr σ1 →
  probes σ1 = probes σ ∧ is_Some (peak_tot_ngrams σ1).
Proof. apply for_sizes_calibrated. Qed.

(** ** Dictionaries *)

Section dict_facts.
Context {K V : Type} `{EqDecision K}.
Implicit Types (d : list (K * V)) (k : K) (v : V).

Lemma dict_get_set d k v k' :
  dict_get (dict_set d k v) k' = if decide (k = k') then Some v else dict_get d k'.
Proof.
  induction d as [|[k0 v0] d IH]; simpl.
  - by repeat case_decide.
  - repeat (case_decide; simpl; simplify_eq); try done.
Qed.

Lemma dict_set_keys d k v :
  (dict_set d k v).*1
  = if dict_get d k is Some _ then d.*1 else d.*1 ++ [k].
Proof.
  induction d as [|[k0 v0] d IH]; csimpl; [done|].
  case_decide; simplify_eq; csimpl; [done|].
  rewrite IH. by destruct (dict_get d k).
Qed.

Lemma dict_get_None d k : dict_get d k = None ↔ k ∉ d.*1.
Proof.
  induction d as [|[k0 v0] d IH]; csimpl.
  - split; [intros _; apply not_elem_of_nil|done].
  - rewrite not_elem_of_cons. case_decide; simplify_eq.
    + split; [done|]. by intros [? _].
    + rewrite IH. split; [by split|by intros [_ ?]].
Qed.

Lemma dict_set_NoDup d k v : NoDup d.*1 → NoDup (dict_set d k v).*1.
Proof.
  intros ND. rewrite dict_set_keys.
  destruct (dict_get d k) eqn:E; [done|].
  apply NoDup_app. split_and!; [done| |apply NoDup_singleton].
  intros x Hx ->%list_elem_of_singleton. by apply dict_get_None in E.
Qed.

Lemma dict_get_elem d k v : NoDup d.*1 → (k, v) ∈ d ↔ dict_get d k = Some v.
Proof.
  induction d as [|[k0 v0] d IH]; csimpl; intros ND.
  - split; [by intros ?%elem_of_nil|done].
  - apply NoDup_cons in ND as [Hk ND]. rewrite elem_of_cons.
    case_decide; simplify_eq.
    + split; [|intros [= ->]; by left].
      intros [[= ->]|Hin]; [done|]. destruct Hk.
      apply list_elem_of_fmap. by exists (k, v).
    + rewrite <- (IH ND). split; [|by right]. by intros [[= -> ->]|?].
Qed.

Lemma dict_set_length d k v :
  length (dict_set d k v)
  = (length d + if dict_get d k is Some _ then 0 else 1)%nat.
Proof.
  induction d as [|[k0 v0] d IH]; simpl; [done|].
  case_decide; simpl; [lia|]. rewrite IH. lia.
Qed.
End dict_facts.

(** ** Writing buffers in any order *)

Lemma upsert_hits_dict (cnt : list (list N * list (list N * Z)))
    (lang : list N) (d : list (list N * Z)) (t : table) :
  _upsert_ngram_hits cnt (upsert_dict lang d t)
  = upsert_dict lang d (_upsert_ngram_hits cnt t).
Proof.
  revert t. induction d as [|[ng h] d IH]; intros t; simpl; [done|].
  fold (upsert_dict lang d (upsert_row ng lang h t)).
  fold (upsert_dict lang d (upsert_row ng lang h (_upsert_ngram_hits cnt t))).
  by rewrite IH, upsert_hits_row.
Qed.

(** Two buffers can be written to a table in either order. *)
Theorem upsert_ngram_hits_comm
    (b1 b2 : list (list N * list (list N * Z))) (t : table) :
  _upsert_ngram_hits b1 (_upsert_ngram_hits b2 t)
  = _upsert_ngram_hits b2 (_upsert_ngram_hits b1 t).
Proof.
  revert t. induction b2 as [|[lang d] b2 IH]; intros t; simpl; [done|].
  fold (upsert_dict lang d t).
  fold (upsert_dict lang d (_upsert_ngram_hits b1 t)).
  by rewrite IH, upsert_hits_dict.
Qed.

(** ** The count of one n-gram *)

Lemma hit_windows_lookup (n : nat) (l text : list N) (t : table)
    (g lang : list N) :
  default 0 (hit_windows n l text t !! (g, lang))
  = default 0 (t !! (g, lang))
    + (if bool_decide (l = lang)
       then Z.of_nat (length (filter (λ w, w = g) (windows n text)))
       else 0).
Proof.
  unfold hit_windows. generalize (windows n text) as ws. intros ws. revert t.
  induction ws as [|w ws IH]; intros t; simpl.
  - case_bool_decide; lia.
  - rewrite IH, upsert_row_lookup, filter_cons.
    destruct (decide ((w, l) = (g, lang))) as [Hk|Hk].
    + injection Hk as -> ->. rewrite bool_decide_eq_true_2 by done.
      rewrite decide_True by done. simpl length.
      destruct (t !! (g, lang)); simpl; lia.
    + destruct (decide (w = g)) as [->|Hw]; case_bool_decide; subst;
        try congruence; simpl; lia.
Qed.

Lemma hit_records_lookup (n : nat) (recs : list (list N * list N * list N))
    (t : table) (g lang : list N) :
  default 0 (hit_records n recs t !! (g, lang))
  = default 0 (t !! (g, lang)) + occurrences n g lang recs.
Proof.
  revert t. induction recs as [|[[l text] user] recs IH]; intros t; simpl.
  - lia.
  - rewrite IH, hit_windows_lookup. lia.
Qed.

Lemma hit_records_positive (n : nat) (recs : list (list N * list N * list N))
    (t : table) :
  (∀ k h, t !! k = Some h → 0 < h) →
  ∀ k h, hit_records n recs t !! k = Some h → 0 < h.
Proof.
  revert t. induction recs as [|[[lang text] user] recs IH]; intros t Ht;
    simpl; [done|].
  apply IH. unfold hit_windows. generalize (windows n text) as ws.
  intros ws. revert t Ht.
  induction ws as [|w ws IHw]; intros t Ht; simpl; [done|].
  apply IHw. intros k h. rewrite upsert_row_lookup. case_decide.
  - destruct (t !! (w, lang)) as [h0|] eqn:E; simpl; intros [= <-]; [|lia].
    apply Ht in E. lia.
  - apply Ht.
Qed.

(** In the table [grams{n}] of a completed run, the hit count of an
    n-gram in a language is the number of times it is a window of a text of
    that language that was let through; an n-gram that never occurs has no
    row. *)
Theorem count_hits_occurrences (py_int : list N → option Z) (P : platform)
    (ru : nat → Z) (corpus : list (list N)) (bl : gset Z) (mm : Z)
    (σ : state) (n : nat) :
  count py_int P ru corpus bl mm = inr σ →
  n ∈ ngram_sizes →
  ∃ t : table,
    raw_grams σ !! n = Some t
    ∧ ∀ g lang,
        t !! (g, lang)
        = if bool_decide (0 < occurrences n g lang (records py_int bl corpus))
          then Some (occurrences n g lang (records py_int bl corpus))
          else None.
Proof.
  intros [G _]%count_spec Hn. eexists. split.
  { rewrite G. by rewrite bool_decide_eq_true_2. }
  intros g lang.
  pose proof (hit_records_lookup n (records py_int bl corpus) ∅ g lang) as L.
  pose proof (hit_records_positive n (records py_int bl corpus) ∅) as Pos.
  rewrite lookup_empty in L. simpl in L.
  destruct (hit_records n (records py_int bl corpus) ∅ !! (g, lang))
    as [h|] eqn:E; simpl in L.
  - apply Pos in E; [|intros k h'; by rewrite lookup_empty].
    rewrite bool_decide_eq_true_2 by lia. f_equal. lia.
  - rewrite bool_decide_eq_false_2 by lia. done.
Qed.

Lemma record_of_excluded (py_int : list N → option Z) (bl : gset Z)
    (line sent_id lang text user : list N) :
  parse_fields line = inr (sent_id, lang, text, user) →
  lang_unset lang = true ∨ (∃ id, py_int sent_id = Some id ∧ id ∈ bl) →
  record_of py_int bl line = None.
Proof.
  intros Hp H. unfold record_of. rewrite Hp.
  destruct (lang_unset lang); [done|].
  destruct H as [H|(id & -> & Hid)]; [done|].
  by rewrite bool_decide_eq_true_2.
Qed.

(** A line whose language is unset, or whose id is blacklisted, adds
    nothing: with or without it, completed runs leave the same n-gram
    tables and the same user scores. *)
Theorem excluded_line_adds_nothing (py_int : list N → option Z)
    (bl : gset Z) (P P' : platform) (ru ru' : nat → Z) (mm mm' : Z)
    (l1 l2 : list (list N)) (line sent_id lang text user : list N)
    (σ σ' : state) :
  parse_fields line = inr (sent_id, lang, text, user) →
  lang_unset lang = true ∨ (∃ id, py_int sent_id = Some id ∧ id ∈ bl) →
  count py_int P ru (l1 ++ line :: l2) bl mm = inr σ →
  count py_int P' ru' (l1 ++ l2) bl mm' = inr σ' →
  raw_grams σ = raw_grams σ' ∧ raw_users_langs σ = raw_users_langs σ'.
Proof.
  intros Hp Hx [G U]%count_spec [G' U']%count_spec.
  assert (records py_int bl (l1 ++ line :: l2) = records py_int bl (l1 ++ l2))
    as Hr.
  { unfold records. rewrite !omap_app. simpl.
    by rewrite (record_of_excluded _ _ _ _ _ _ _ Hp Hx). }
  rewrite Hr in G, U. split.
  - apply map_eq. intros m. by rewrite G, G'.
  - by rewrite U, U'.
Qed.

(** ** The entry counter *)

Lemma entries_set (cnt : list (list N * list (list N * Z))) (lang : list N)
    (d : list (list N * Z)) :
  entries (dict_set cnt lang d)
  = entries cnt - Z.of_nat (length (default [] (dict_get cnt lang)))
    + Z.of_nat (length d).
Proof.
  induction cnt as [|[l0 d0] cnt IH]; simpl; [lia|].
  case_decide; simpl; [lia|]. rewrite IH. lia.
Qed.

Lemma count_ngram_entries (lang ngram : list N)
    (cnt : list (list N * list (list N * Z))) (tot : Z) :
  (count_ngram lang ngram (cnt, tot)).2
  - entries (count_ngram lang ngram (cnt, tot)).1
  = tot - entries cnt.
Proof.
  unfold count_ngram. cbn [fst snd].
  rewrite entries_set, dict_set_length.
  destruct (dict_get (default [] (dict_get cnt lang)) ngram); lia.
Qed.

(** Counting the windows of a text raises [tot_ngrams] by exactly the
    number of new (language, n-gram) entries of the buffer. *)
Theorem count_text_entries (n : nat) (lang text : list N)
    (cnt : list (list N * list (list N * Z))) (tot : Z) :
  (count_text n lang text (cnt, tot)).2
  - entries (count_text n lang text (cnt, tot)).1
  = tot - entries cnt.
Proof.
  unfold count_text. generalize (range (len text - Z.of_nat n + 1)) as idx.
  intros idx. revert cnt tot.
  induction idx as [|i idx IH]; intros cnt tot; simpl; [done|].
  destruct (count_ngram lang (slice text i (i + n)) (cnt, tot))
    as [cnt1 tot1] eqn:E.
  rewrite IH.
  pose proof (count_ngram_entries lang (slice text i (i + n)) cnt tot) as H.
  by rewrite E in H.
Qed.

(** ** The score of a user in a language *)

Lemma add_scores_get (recs : list (list N * list N * list N))
    (sc : list ((list N * list N) * Z)) (u l : list N) :
  default 0 (dict_get (add_scores recs sc) (u, l))
  = default 0 (dict_get sc (u, l)) + score_total u l recs
  ∧ (is_Some (dict_get (add_scores recs sc) (u, l))
     ↔ is_Some (dict_get sc (u, l)) ∨ ∃ text, (l, text, u) ∈ recs).
Proof.
  revert sc. induction recs as [|[[l0 text0] u0] recs IH]; intros sc.
  { simpl. split; [lia|]. split; [by left|].
    intros [?|[? ?%elem_of_nil]]; done. }
  change (add_scores ((l0, text0, u0) :: recs) sc)
    with (add_scores recs (add_score u0 l0 text0 sc)).
  destruct (IH (add_score u0 l0 text0 sc)) as [IH1 IH2].
  unfold add_score in IH1, IH2 |- *. rewrite dict_get_set in IH1, IH2.
  simpl score_total. split.
  - rewrite IH1. case_decide as Hk.
    + injection Hk as -> ->. rewrite bool_decide_eq_true_2 by done.
      simpl. lia.
    + rewrite bool_decide_eq_false_2; [lia|]. intros [-> ->]. done.
  - rewrite IH2. setoid_rewrite elem_of_cons. case_decide as Hk.
    + injection Hk as -> ->. split; [|intros _; left; by eexists].
      intros _. right. exists text0. by left.
    + split.
      * intros [?|[text Ht]]; [by left|]. right. exists text. by right.
      * intros [?|[text [Ht|Ht]]]; [by left| |right; by exists text].
        injection Ht as -> -> ->. done.
Qed.

Lemma add_scores_NoDup (recs : list (list N * list N * list N))
    (sc : list ((list N * list N) * Z)) :
  NoDup sc.*1 → NoDup (add_scores recs sc).*1.
Proof.
  revert sc. induction recs as [|[[l0 text0] u0] recs IH]; intros sc ND;
    simpl; [done|].
  apply IH. by apply dict_set_NoDup.
Qed.

Lemma count_users_spec (py_int : list N → option Z) (P : platform)
    (ru : nat → Z) (corpus : list (list N)) (bl : gset Z) (mm : Z)
    (σ : state) :
  count py_int P ru corpus bl mm = inr σ →
  NoDup ((λ '(user, lang, _), (user, lang)) <$> raw_users_langs σ)
  ∧ ∀ user lang total,
      (user, lang, total) ∈ raw_users_langs σ
      ↔ (∃ text, (lang, text, user) ∈ records py_int bl corpus)
        ∧ total = score_total user lang (records py_int bl corpus).
Proof.
  intros [_ U]%count_spec. rewrite U. clear U.
  set (recs := records py_int bl corpus).
  pose proof (add_scores_NoDup recs [] (NoDup_nil_2)) as ND. split.
  - replace ((λ '(user, lang, _), (user, lang))
               <$> ((λ '(user, lang, hit), (user, lang, hit))
                      <$> add_scores recs []))
      with (add_scores recs []).*1; [exact ND|].
    generalize (add_scores recs []). intros d.
    induction d as [|[[u l] h] d IHd]; csimpl; [done|]. by rewrite IHd.
  - intros user lang total.
    destruct (add_scores_get recs [] user lang) as [G1 G2].
    simpl in G1, G2.
    rewrite list_elem_of_fmap. split.
    + intros ([[u l] h] & [= -> -> ->] & Hin).
      apply dict_get_elem in Hin; [|done]. rewrite Hin in G1, G2.
      simpl in G1. split; [|lia].
      destruct G2 as [G2 _]. destruct G2 as [[? [=]]|?]; [by eexists|done].
    + intros [Hex ->]. exists ((user, lang), score_total user lang recs).
      split; [done|]. apply dict_get_elem; [done|].
      destruct G2 as [_ G2]. destruct G2 as [h Hh]; [by right|].
      rewrite Hh in G1 |- *. simpl in G1. f_equal. lia.
Qed.

(** The table [users_langs] of a completed run has one row for each
    pair of a user and a language with a text that was let through, and
    its total is the number of characters of these texts. *)
Theorem users_langs_totals (py_int : list N → option Z) (P : platform)
    (ru : nat → Z) (corpus : list (list N)) (bl : gset Z) (mm : Z)
    (σ : state) :
  count py_int P ru corpus bl mm = inr σ →
  NoDup ((λ '(user, lang, _), (user, lang)) <$> raw_users_langs σ)
  ∧ ∀ user lang total,
      (user, lang, total) ∈ raw_users_langs σ
      ↔ (∃ text, (lang, text, user) ∈ records py_int bl corpus)
        ∧ total = score_total user lang (records py_int bl corpus).
Proof. apply count_users_spec. Qed.



Lemma merge_batches_hit_records (n : nat)
    (batches : list (list (list N * list N * list N))) (t : table) :
  merge_batches n batches t = hit_records n (concat batches) t.
Proof.
  unfold merge_batches. revert t.
  induction batches as [|b batches IH]; intros t; simpl; [done|].
  by rewrite IH, upsert_hits_accumulate, hit_records_app.
Qed.

(** C2. Whatever the flush timing of two completed runs over the same
    corpus (platform, memory readings and ceiling may differ), the raw
    tables are the same; and for any partition of the records into
    batches, writing the batches one after the other by merge-add gives
    the table of the run, which is also the table of a single batch. *)
Theorem count_independent_of_flushes
    (py_int : list N → option Z) (corpus : list (list N)) (bl : gset Z)
    (P P' : platform) (ru ru' : nat → Z) (mm mm' : Z) (σ σ' : state)
    (n : nat) (batches : list (list (list N * list N * list N))) :
  count py_int P ru corpus bl mm = inr σ →
  count py_int P' ru' corpus bl mm' = inr σ' →
  concat batches = records py_int bl corpus →
  n ∈ ngram_sizes →
  raw_grams σ = raw_grams σ'
  ∧ raw_users_langs σ = raw_users_langs σ'
  ∧ raw_grams σ !! n = Some (merge_batches n batches ∅)
  ∧ merge_batches n batches ∅
    = _upsert_ngram_hits (accumulate n (records py_int bl corpus)) ∅.
Proof.
  intros [G U]%count_spec [G' U']%count_spec Hb Hn. split_and!.
  - apply map_eq. intros m. by rewrite G, G'.
  - by rewrite U, U'.
  - rewrite G, bool_decide_eq_true_2 by done.
    by rewrite merge_batches_hit_records, Hb.
  - by rewrite merge_batches_hit_records, Hb, upsert_hits_accumulate.
Qed.

(** ** The extraction of the key content *)

Section extract_facts.
Context {F : Type} `{Real F}.

Lemma key_tables_spec (sizes : list nat) (raw : gmap nat table)
    (acc g : gmap nat (gmap (list N * list N) (Z * F))) :
  key_tables sizes raw acc = inr g →
  ∀ n, g !! n = if bool_decide (n ∈ sizes) then key_grams <$> raw !! n
                else acc !! n.
Proof.
  revert acc. induction sizes as [|n0 sizes IH]; intros acc; cbn [key_tables].
  { intros [= <-] n. case_bool_decide as Hn; [|done].
    by apply elem_of_nil in Hn. }
  destruct (raw !! n0) as [t|] eqn:E; [|done]. intros Hk n.
  rewrite (IH _ Hk n). destruct (decide (n = n0)) as [->|Hn].
  - rewrite (bool_decide_eq_true_2 (n0 ∈ n0 :: sizes)) by (by left).
    case_bool_decide; [done|]. by rewrite lookup_insert_eq, E.
  - rewrite lookup_insert_ne by done.
    repeat case_bool_decide; try done; exfalso; set_solver.
Qed.


Lemma key_tables_missing (sizes : list nat) (raw : gmap nat table)
    (acc : gmap nat (gmap (list N * list N) (Z * F))) (n : nat) :
  n ∈ sizes → raw !! n = None →
  key_tables sizes raw acc = inl OperationalError.
Proof.
  revert acc. induction sizes as [|n0 sizes IH]; intros acc Hn Hr; simpl.
  { by apply elem_of_nil in Hn. }
  destruct (raw !! n0) as [t|] eqn:E; [|done].
  apply elem_of_cons in Hn as [->|Hn]; [congruence|]. by apply IH.
Qed.

Lemma key_grams_lookup (raw : table) (gram lang : list N) (hit : Z) (p : F) :
  key_grams raw !! (gram, lang) = Some (hit, p)
  ↔ raw !! (gram, lang) = Some hit
    ∧ percent hit (lang_total raw lang) = Some p
    ∧ real_gt p (freq_limit lang) = true.
Proof.
  unfold key_grams. rewrite map_lookup_imap.
  destruct (raw !! (gram, lang)) as [h|]; simpl; [|by split; [|intros [? _]]].
  destruct (percent h (lang_total raw lang)) as [q|] eqn:Ep.
  - destruct (real_gt q (freq_limit lang)) eqn:Eg.
    + split; [by intros [= <- <-]|]. intros ([= <-] & Hq & _).
      rewrite Ep in Hq. by injection Hq as <-.
    + split; [done|]. intros ([= <-] & Hq & Hg).
      rewrite Ep in Hq. injection Hq as <-. congruence.
  - split; [done|]. intros ([= <-] & Hq & _). congruence.
Qed.
End extract_facts.

Lemma sizes_elem (n : nat) :
  n ∈ seq MIN_NGRAM_SIZE (MAX_NGRAM_SIZE + 1 - MIN_NGRAM_SIZE)
  ↔ (MIN_NGRAM_SIZE ≤ n ≤ MAX_NGRAM_SIZE)%nat.
Proof. rewrite elem_of_seq. unfold MIN_NGRAM_SIZE, MAX_NGRAM_SIZE. lia. Qed.


(** The contributors of the final database are the raw rows whose total
    is strictly above 100, in the order of the raw table: 100 itself is
    left out, 101 is kept. *)
Theorem extract_keeps_users {F : Type} `{Real F} (raw_g : gmap nat table)
    (raw_u : list (list N * list N * Z)) (fin : @final_db F) :
  extract_key_content_from raw_g raw_u = inr fin →
  (∀ user lang total,
     (user, lang, total) ∈ final_users_langs fin
     ↔ (user, lang, total) ∈ raw_u ∧ 100 < total)
  ∧ final_users_langs fin `sublist_of` raw_u.
Proof.
  unfold extract_key_content_from.
  destruct (key_tables _ raw_g ∅) as [e|g]; [done|]. simpl.
  case_bool_decide; [|done]. intros [= <-]. simpl. split.
  - intros user lang total. unfold key_users.
    rewrite list_elem_of_filter. simpl. unfold MIN_USER_CONTRIB_IN_LANG.
    tauto.
  - apply sublist_filter.
Qed.

(** A row [(gram, lang, hit, percent)] is in a final n-gram table
    exactly when the raw table has [(gram, lang, hit)], the language total
    is not zero, [percent] is their quotient and it is strictly greater
    than the limit of the language: 0.000005 for wuu, yue and cmn, 0.00001
    for every other language. *)
Theorem extract_keeps_grams {F : Type} `{Real F} (raw_g : gmap nat table)
    (raw_u : list (list N * list N * Z)) (fin : @final_db F) (n : nat) :
  extract_key_content_from raw_g raw_u = inr fin →
  (MIN_NGRAM_SIZE ≤ n ≤ MAX_NGRAM_SIZE)%nat →
  ∃ (t : table) ft,
    raw_g !! n = Some t
    ∧ final_grams fin !! n = Some ft
    ∧ ∀ gram lang hit p,
        ft !! (gram, lang) = Some (hit, p)
        ↔ t !! (gram, lang) = Some hit
          ∧ lang_total t lang ≠ 0
          ∧ p = real_div (real_of_int hit) (real_of_int (lang_total t lang))
          ∧ real_gt p (if bool_decide (lang ∈ [py "wuu"; py "yue"; py "cmn"])
                       then real_of_decimal 5 6 else real_of_decimal 1 5)
            = true.
Proof.
  unfold extract_key_content_from.
  destruct (key_tables _ raw_g ∅) as [e|g] eqn:E; [done|]. simpl.
  case_bool_decide; [|done]. intros [= <-] Hn. simpl.
  pose proof (key_tables_spec _ _ _ _ E n) as Hg.
  rewrite bool_decide_eq_true_2 in Hg by (by apply sizes_elem).
  destruct (raw_g !! n) as [t|] eqn:Et.
  2:{ apply sizes_elem in Hn.
      by rewrite (key_tables_missing _ raw_g ∅ n Hn Et) in E. }
  exists t, (key_grams t). split; [done|]. split; [done|].
  intros gram lang hit p. rewrite key_grams_lookup. unfold percent.
  change (freq_limit lang)
    with (if bool_decide (lang ∈ [py "wuu"; py "yue"; py "cmn"])
          then real_of_decimal 5 6 else real_of_decimal 1 5 : F).
  case_bool_decide as Hz.
  - split; [by intros (_ & ? & _)|by intros (_ & ? & _)].
  - split.
    + intros (? & [= <-] & ?). done.
    + intros (? & _ & -> & ?). done.
Qed.

(** The comparison is strict: when no value is greater than itself, a
    row whose frequency equals its limit is left out. *)
Theorem boundary_frequency_excluded {F : Type} `{Real F} (t : table)
    (gram lang : list N) (hit : Z) :
  (∀ x : F, real_gt x x = false) →
  t !! (gram, lang) = Some hit →
  percent hit (lang_total t lang) = Some (freq_limit lang) →
  key_grams t !! (gram, lang) = None.
Proof.
  intros Hirr Ht Hp.
  destruct (key_grams t !! (gram, lang)) as [[h p]|] eqn:E; [|done].
  apply key_grams_lookup in E as (Ht' & Hp' & Hg).
  rewrite Ht in Ht'. injection Ht' as <-. rewrite Hp in Hp'.
  injection Hp' as <-. by rewrite Hirr in Hg.
Qed.



Lemma count_hits_sum_windows_witness :
  ∃ σ, count ascii_int Linux quiet corpus3 ∅ 500 = inr σ
       ∧ ∃ t : table,
           raw_grams σ !! 2%nat = Some t
           ∧ lang_total t (py "eng") = 2
           ∧ ∀ g l h, t !! (g, l) = Some h → length g = 2%nat.
Proof.
  destruct (count ascii_int Linux quiet corpus3 ∅ 500) as [e|σ] eqn:E.
  { vm_compute in E. discriminate. }
  exists σ. split; [reflexivity|].
  destruct (count_hits_sum_windows ascii_int Linux quiet corpus3 ∅ 500 σ
              2%nat (py "eng") E) as (t & Ht & Hsum & Hlen).
  { apply ngram_sizes_elem. unfold MIN_NGRAM_SIZE, MAX_NGRAM_SIZE. lia. }
  exists t. split; [exact Ht|]. split; [|exact Hlen].
  rewrite Hsum. vm_compute. reflexivity.
Defined.

Lemma count_independent_of_flushes_witness :
  ∃ σ σ',
    count ascii_int Linux quiet corpus3 ∅ 500 = inr σ
    ∧ count ascii_int Darwin eager corpus3 ∅ 0 = inr σ'
    ∧ raw_grams σ = raw_grams σ'
    ∧ raw_users_langs σ = raw_users_langs σ'
    ∧ raw_grams σ !! 2%nat
      = Some (merge_batches 2
                [[(py "eng", py "ab", py "u1")];
                 [(py "eng", py "ab", py "u1")]] ∅).
Proof.
  destruct (count ascii_int Linux quiet corpus3 ∅ 500) as [e|σ] eqn:E.
  { vm_compute in E. discriminate. }
  destruct (count ascii_int Darwin eager corpus3 ∅ 0) as [e|σ'] eqn:E'.
  { vm_compute in E'. discriminate. }
  exists σ, σ'. split; [reflexivity|]. split; [reflexivity|].
  destruct (count_independent_of_flushes ascii_int corpus3 ∅ Linux Darwin
              quiet eager 500 0 σ σ' 2%nat
              [[(py "eng", py "ab", py "u1")]; [(py "eng", py "ab", py "u1")]]
              E E') as (H1 & H2 & H3 & _).
  { vm_compute. reflexivity. }
  { apply ngram_sizes_elem. unfold MIN_NGRAM_SIZE, MAX_NGRAM_SIZE. lia. }
  split; [exact H1|]. split; [exact H2|exact H3].
Defined.

Lemma short_line_raises_witness :
  (∀ n j σ, loop_body ascii_int Linux quiet ∅ 500 n j short_line σ
            = inl ValueError)
  ∧ raises (count ascii_int Linux quiet (corpus3 ++ [short_line]) ∅ 500).
Proof.
  apply (short_line_raises ascii_int Linux quiet (corpus3 ++ [short_line])
           ∅ 500 short_line).
  - apply elem_of_app. right. apply elem_of_cons. by left.
  - vm_compute. lia.
Defined.

Lemma bad_id_raises_witness :
  (∀ n j σ, loop_body ascii_int Linux quiet ∅ 500 n j bad_id_line σ
            = inl ValueError)
  ∧ raises (count ascii_int Linux quiet (corpus3 ++ [bad_id_line]) ∅ 500).
Proof.
  apply (bad_id_raises ascii_int Linux quiet (corpus3 ++ [bad_id_line])
           ∅ 500 bad_id_line (py "x7") (py "eng") (py "ab") (py "u1")).
  - apply elem_of_app. right. apply elem_of_cons. by left.
  - reflexivity.
  - reflexivity.
  - reflexivity.
Defined.

Lemma calibrated_run_never_probes_witness :
  ∃ σ1,
    for_sizes ascii_int Linux eager corpus3 ∅ 500 [4; 3]%nat
      (set_peak initial (Some 0)) = inr σ1
    ∧ probes σ1 = probes (set_peak initial (Some 0))
    ∧ is_Some (peak_tot_ngrams σ1).
Proof.
  assert (is_Some (peak_tot_ngrams (set_peak initial (Some 0)))) as Hp.
  { exists 0. reflexivity. }
  destruct (for_sizes ascii_int Linux eager corpus3 ∅ 500 [4; 3]%nat
              (set_peak initial (Some 0))) as [e|σ1] eqn:E.
  { vm_compute in E. discriminate. }
  exists σ1. split; [reflexivity|].
  exact (calibrated_run_never_probes ascii_int Linux eager corpus3 ∅ 500
           [4; 3]%nat (set_peak initial (Some 0)) σ1 Hp E).
Defined.

Lemma unsupported_platform_raises_witness :
  raises (count ascii_int OtherPlatform quiet corpus3 ∅ 500).
Proof.
  apply (unsupported_platform_raises ascii_int quiet corpus3 ∅ 500).
  vm_compute. discriminate.
Defined.

Lemma count_four_passes_witness :
  ∃ σ,
    count ascii_int Linux eager corpus3 ∅ 500 = inr σ
    ∧ rev (pass_events (trace σ))
      = [EvOpen 5; EvStatus 5 2 true; EvOpen 4; EvStatus 4 2 true;
         EvOpen 3; EvStatus 3 2 true; EvOpen 2; EvStatus 2 2 true]
    ∧ ∀ i, EvSkipped i ∉ trace σ.
Proof.
  destruct (count ascii_int Linux eager corpus3 ∅ 500) as [e|σ] eqn:E.
  { vm_compute in E. discriminate. }
  exists σ. split; [reflexivity|].
  exact (count_four_passes ascii_int Linux eager corpus3 ∅ 500 σ E).
Defined.

Lemma count_hits_occurrences_witness :
  ∃ σ (t : table),
    count ascii_int Linux quiet corpus3 ∅ 500 = inr σ
    ∧ raw_grams σ !! 2%nat = Some t
    ∧ t !! (py "ab", py "eng") = Some 2
    ∧ t !! (py "xx", py "eng") = None.
Proof.
  destruct (count ascii_int Linux quiet corpus3 ∅ 500) as [e|σ] eqn:E.
  { vm_compute in E. discriminate. }
  destruct (count_hits_occurrences ascii_int Linux quiet corpus3 ∅ 500 σ
              2%nat E) as (t & Ht & Hk).
  { apply ngram_sizes_elem. unfold MIN_NGRAM_SIZE, MAX_NGRAM_SIZE. lia. }
  exists σ, t. split; [reflexivity|]. split; [exact Ht|]. split.
  - rewrite Hk. vm_compute. reflexivity.
  - rewrite Hk. vm_compute. reflexivity.
Defined.

Lemma excluded_line_adds_nothing_witness :
  ∃ σ σ',
    count ascii_int Linux quiet
      ([py "1	eng	ab	u1"] ++ py "2	eng	ab	u1" :: [py "3	\N	xx	u2"])
      {[2]} 500 = inr σ
    ∧ count ascii_int Linux eager
        ([py "1	eng	ab	u1"] ++ [py "3	\N	xx	u2"]) {[2]} 500 = inr σ'
    ∧ raw_grams σ = raw_grams σ'
    ∧ raw_users_langs σ = raw_users_langs σ'.
Proof.
  assert (lang_unset (py "eng") = true
          ∨ (∃ id, ascii_int (py "2") = Some id ∧ id ∈ ({[2]} : gset Z)))
    as Hx.
  { right. exists 2. split; [reflexivity|]. by apply elem_of_singleton. }
  destruct (count ascii_int Linux quiet
              ([py "1	eng	ab	u1"] ++ py "2	eng	ab	u1" :: [py "3	\N	xx	u2"])
              {[2]} 500) as [e|σ] eqn:E.
  { vm_compute in E. discriminate. }
  destruct (count ascii_int Linux eager
              ([py "1	eng	ab	u1"] ++ [py "3	\N	xx	u2"]) {[2]} 500)
    as [e|σ'] eqn:E'.
  { vm_compute in E'. discriminate. }
  exists σ, σ'. split; [reflexivity|]. split; [reflexivity|].
  exact (excluded_line_adds_nothing ascii_int {[2]} Linux Linux quiet eager
           500 500 [py "1	eng	ab	u1"] [py "3	\N	xx	u2"] (py "2	eng	ab	u1")
           (py "2") (py "eng") (py "ab") (py "u1") σ σ' eq_refl Hx E E').
Defined.

Lemma users_langs_totals_witness :
  ∃ σ,
    count ascii_int Linux quiet corpus3 ∅ 500 = inr σ
    ∧ NoDup ((λ '(user, lang, _), (user, lang)) <$> raw_users_langs σ)
    ∧ ∀ user lang total,
        (user, lang, total) ∈ raw_users_langs σ
        ↔ (∃ text, (lang, text, user) ∈ records ascii_int ∅ corpus3)
          ∧ total = score_total user lang (records ascii_int ∅ corpus3).
Proof.
  destruct (count ascii_int Linux quiet corpus3 ∅ 500) as [e|σ] eqn:E.
  { vm_compute in E. discriminate. }
  exists σ. split; [reflexivity|].
  exact (users_langs_totals ascii_int Linux quiet corpus3 ∅ 500 σ E).
Defined.

Lemma lang_total_nonneg (t : table) (lang : list N) :
  (∀ k h, t !! k = Some h → 0 < h) → 0 ≤ lang_total t lang.
Proof.
  unfold lang_total.
  apply (map_fold_weak_ind (λ r (m : table),
           (∀ k h, m !! k = Some h → 0 < h) → 0 ≤ r)).
  - intros _. lia.
  - intros k h m r Hk IH Hm.
    assert (0 < h) by (apply (Hm k); by rewrite lookup_insert_eq).
    assert (0 ≤ r).
    { apply IH. intros k' h' Hk'. apply (Hm k').
      rewrite lookup_insert_ne; [done|]. intros <-. congruence. }
    case_bool_decide; lia.
Qed.

Lemma lang_total_bound (t : table) (gram lang : list N) (hit : Z) :
  (∀ k h, t !! k = Some h → 0 < h) →
  t !! (gram, lang) = Some hit → hit ≤ lang_total t lang.
Proof.
  intros Ht Hg.
  assert (t = upsert_row gram lang hit (delete (gram, lang) t)) as E.
  { unfold upsert_row. rewrite lookup_delete_eq.
    by rewrite insert_delete_eq, insert_id. }
  rewrite E, lang_total_upsert_row, bool_decide_eq_true_2 by done.
  assert (0 ≤ lang_total (delete (gram, lang) t) lang); [|lia].
  apply lang_total_nonneg. intros k h Hk. apply (Ht k).
  by apply lookup_delete_Some in Hk as [_ ?].
Qed.

(** Every row of a table of a completed run has a hit count between 1
    and the total of its language, so the frequency computed by the
    extraction never divides by zero and lies between 0 and 1. *)
Theorem counted_hits_bounded (py_int : list N → option Z) (P : platform)
    (ru : nat → Z) (corpus : list (list N)) (bl : gset Z) (mm : Z)
    (σ : state) (n : nat) (t : table) (gram lang : list N) (hit : Z) :
  count py_int P ru corpus bl mm = inr σ →
  raw_grams σ !! n = Some t →
  t !! (gram, lang) = Some hit →
  0 < hit ≤ lang_total t lang
  ∧ lang_total t lang = windows_total n lang (records py_int bl corpus).
Proof.
  intros [G _]%count_spec Ht Hg. rewrite G in Ht.
  case_bool_decide; [|done]. injection Ht as <-.
  assert (∀ k h, hit_records n (records py_int bl corpus) ∅ !! k = Some h
                 → 0 < h) as Hpos.
  { apply hit_records_positive. intros k h. by rewrite lookup_empty. }
  split_and!.
  - by apply (Hpos (gram, lang)).
  - by apply (lang_total_bound _ gram).
  - by rewrite lang_total_hit_records, lang_total_empty.
Qed.

Lemma tag_line_cases (py_int : list N → option Z) (tag line : list N)
    (tagged : gset Z) :
  (tag_line_ok py_int tag line = false
   ∧ tag_line py_int tag line tagged = inl ValueError)
  ∨ (tag_line_ok py_int tag line = true
     ∧ ∃ tagged', tag_line py_int tag line tagged = inr tagged'
        ∧ ∀ id, id ∈ tagged'
            ↔ id ∈ tagged
              ∨ ∃ sid, split TAB (rstrip line) = [sid; tag]
                       ∧ py_int sid = Some id).
Proof.
  unfold tag_line, tag_line_ok.
  destruct (split TAB (rstrip line)) as [|a [|b [|c r]]]; simpl; auto.
  case_bool_decide as Ht; simpl.
  - subst b. destruct (py_int a) as [id0|] eqn:Ei.
    + right. split; [by apply bool_decide_eq_true_2|].
      eexists; split; [done|]. intros id. rewrite elem_of_union, elem_of_singleton.
      split.
      * intros [->|?]; [right|by left]. by exists a.
      * intros [?|(sid & [= <-] & Hs)]; [by right|left; congruence].
    + left. split; [|done]. apply bool_decide_eq_false_2. by intros [? ?].
  - right. split; [done|]. eexists; split; [done|]. intros id. split; [auto|].
    intros [?|(sid & [= <- ?] & _)]; done.
Qed.

Lemma for_tag_lines_ok (py_int : list N → option Z) (tag : list N)
    (lines : list (list N)) (tagged : gset Z) :
  (∀ line, line ∈ lines → tag_line_ok py_int tag line = true) →
  ∃ tagged', for_tag_lines py_int tag lines tagged = (tagged', None)
    ∧ ∀ id, id ∈ tagged'
        ↔ id ∈ tagged
          ∨ ∃ line sid, line ∈ lines
                        ∧ split TAB (rstrip line) = [sid; tag]
                        ∧ py_int sid = Some id.
Proof.
  revert tagged. induction lines as [|l lines IH]; intros tagged Hok; simpl.
  { eexists; split; [done|]. intros id. split; [auto|].
    intros [?|(line & ? & []%elem_of_nil & _)]. done. }
  destruct (tag_line_cases py_int tag l tagged) as [[Hno _]|(_ & t1 & -> & Ht1)].
  { rewrite Hok in Hno by (by left). done. }
  destruct (IH t1) as (t2 & -> & Ht2).
  { intros line Hl. apply Hok. by right. }
  eexists; split; [done|]. intros id. rewrite Ht2, Ht1. split.
  - intros [[?|(sid & ? & ?)]|(line & sid & ? & ? & ?)]; [by left|right..].
    + exists l, sid. split; [by left|done].
    + exists line, sid. split; [by right|done].
  - intros [?|(line & sid & [->|?]%elem_of_cons & ? & ?)].
    + by left; left.
    + left; right. by exists sid.
    + right. by exists line, sid.
Qed.

Lemma for_tag_lines_bad (py_int : list N → option Z) (tag : list N)
    (lines : list (list N)) (line : list N) (tagged : gset Z) :
  line ∈ lines → tag_line_ok py_int tag line = false →
  ∃ tagged', for_tag_lines py_int tag lines tagged = (tagged', Some ValueError).
Proof.
  revert tagged. induction lines as [|l lines IH]; intros tagged Hl Hno; simpl.
  { by apply elem_of_nil in Hl. }
  destruct (tag_line_cases py_int tag l tagged) as [[_ ->]|(Hy & t1 & -> & _)];
    [eauto|].
  apply elem_of_cons in Hl as [->|Hl]; [congruence|]. by apply IH.
Qed.

Lemma all_or_bad (py_int : list N → option Z) (tag : list N)
    (lines : list (list N)) :
  (∀ line, line ∈ lines → tag_line_ok py_int tag line = true)
  ∨ ∃ line, line ∈ lines ∧ tag_line_ok py_int tag line = false.
Proof.
  induction lines as [|l lines [IH|(line & Hl & Hno)]].
  - left. by intros ? ?%elem_of_nil.
  - destruct (tag_line_ok py_int tag l) eqn:E.
    + left. by intros line [->|?]%elem_of_cons; [|apply IH].
    + right. exists l. split; [by left|done].
  - right. exists line. split; [by right|done].
Qed.

(** The ids of the tagged sentences are returned only when the path is
    given, the file exists and every line has two fields (with an integer
    id on the lines carrying the tag); otherwise the call raises, and
    which exception is determined: [TypeError] without a path,
    [FileNotFoundError] without a file, [ValueError] on a bad line. The
    [IndexError] handler never applies. *)
Theorem tags_load_fails_iff (fs : files) (py_int : list N → option Z)
    (tags_path : option (list N)) (tag_name : list N) (e : exn) :
  get_sentences_with_tag fs py_int tags_path tag_name = inl e
  ↔ (tags_path = None ∧ e = TypeError)
    ∨ (∃ p, tags_path = Some p ∧ fs p = None ∧ e = FileNotFoundError)
    ∨ (∃ p lines line, tags_path = Some p ∧ fs p = Some lines
         ∧ line ∈ lines ∧ tag_line_ok py_int tag_name line = false
         ∧ e = ValueError).
Proof.
  unfold get_sentences_with_tag, open.
  destruct tags_path as [p|]; simpl.
  2: { split; [intros [= <-]; by left|].
       intros [[_ ->]|[(p & ? & _)|(p & ? & ? & ? & _)]]; done. }
  destruct (fs p) as [lines|] eqn:Ef.
  2: { split; [intros [= <-]; right; left; by exists p|].
       intros [[? _]|[(? & _ & _ & ->)|(? & ? & ? & [= <-] & ? & _)]];
         [done|done|congruence]. }
  destruct (all_or_bad py_int tag_name lines) as [Hok|(line & Hl & Hno)].
  - destruct (for_tag_lines_ok py_int tag_name lines ∅ Hok) as (t & -> & _).
    split; [done|].
    intros [[? _]|[(? & [= <-] & ? & _)|(? & ? & l & [= <-] & ? & Hl & Hno & _)]];
      [done|congruence|].
    assert (lines = x0) as <- by congruence. rewrite Hok in Hno; done.
  - destruct (for_tag_lines_bad py_int tag_name lines line ∅ Hl Hno) as (t & ->).
    split.
    + intros [= <-]. right; right. by exists p, lines, line.
    + intros [[? _]|[(? & [= <-] & ? & _)|(? & ? & ? & _ & _ & _ & _ & ->)]];
        [done|congruence|done].
Qed.

Lemma get_sentences_with_tag_inr (fs : files) (py_int : list N → option Z)
    (tags_path : option (list N)) (tag_name : list N) (tagged : gset Z) :
  get_sentences_with_tag fs py_int tags_path tag_name = inr tagged →
  ∃ p lines, tags_path = Some p ∧ fs p = Some lines
    ∧ ∀ id, id ∈ tagged
        ↔ ∃ line sid, line ∈ lines
                      ∧ split TAB (rstrip line) = [sid; tag_name]
                      ∧ py_int sid = Some id.
Proof.
  unfold get_sentences_with_tag, open.
  destruct tags_path as [p|]; simpl; [|done].
  destruct (fs p) as [lines|] eqn:Ef; [|done].
  destruct (all_or_bad py_int tag_name lines) as [Hok|(line & Hl & Hno)].
  - destruct (for_tag_lines_ok py_int tag_name lines ∅ Hok) as (t & -> & Ht).
    intros [= <-]. exists p, lines. split_and!; [done..|].
    intros id. rewrite Ht. split; [|auto].
    intros [[]%elem_of_empty|?]; done.
  - destruct (for_tag_lines_bad py_int tag_name lines line ∅ Hl Hno) as (t & ->).
    done.
Qed.

(** When the call returns, the set holds exactly the integer ids of the
    lines of the file whose second field is the tag. *)
Theorem tagged_ids_spec (fs : files) (py_int : list N → option Z)
    (tags_path : option (list N)) (tag_name : list N) (tagged : gset Z) :
  get_sentences_with_tag fs py_int tags_path tag_name = inr tagged →
  ∃ p lines, tags_path = Some p ∧ fs p = Some lines
    ∧ ∀ id, id ∈ tagged
        ↔ ∃ line sid, line ∈ lines
                      ∧ split TAB (rstrip line) = [sid; tag_name]
                      ∧ py_int sid = Some id.
Proof. exact (get_sentences_with_tag_inr fs py_int tags_path tag_name tagged). Qed.

(** Without a fourth command-line argument the script never counts
    anything: with fewer than three it exits with status 1, and with
    exactly three the missing tags path makes the blacklist loading raise
    [TypeError]. *)
Theorem main_without_tags_path {F : Type} `{Real F} (fs : files)
    (py_int : list N → option Z) (P : platform) (ru : nat → Z)
    (argv : list (list N)) :
  (length argv ≤ 3)%nat →
  main (F := F) fs py_int P ru argv
  = if bool_decide (length argv < 3)%nat then Exit 1 else Raised TypeError.
Proof.
  intros Hl. destruct argv as [|a0 [|a1 [|a2 [|a3 rest]]]]; simpl in *;
    try done. lia.
Qed.

(** A completed run of the script had a tags file and a corpus to read,
    and its final database is the key content of the counts of the
    corpus records whose id is not tagged [@change flag]: for each size
    the key n-grams of the table of those records, and the contributors
    of those records whose score is above the threshold. *)
Theorem main_done_spec {F : Type} `{Real F} (fs : files)
    (py_int : list N → option Z) (P : platform) (ru : nat → Z)
    (argv : list (list N)) (fin : @final_db F) :
  main fs py_int P ru argv = Done fin →
  ∃ prog sd db tags rest corpus tag_lines (bl : gset Z),
    argv = prog :: sd :: db :: tags :: rest
    ∧ fs sd = Some corpus ∧ fs tags = Some tag_lines
    ∧ (∀ id, id ∈ bl
         ↔ ∃ line sid, line ∈ tag_lines
                       ∧ split TAB (rstrip line) = [sid; py "@change flag"]
                       ∧ py_int sid = Some id)
    ∧ (∀ n, (MIN_NGRAM_SIZE ≤ n ≤ MAX_NGRAM_SIZE)%nat →
         final_grams fin !! n
         = Some (key_grams (hit_records n (records py_int bl corpus) ∅)))
    ∧ (∀ user lang total,
         (user, lang, total) ∈ final_users_langs fin
         ↔ (∃ text, (lang, text, user) ∈ records py_int bl corpus)
           ∧ total = score_total user lang (records py_int bl corpus)
           ∧ MIN_USER_CONTRIB_IN_LANG < total).
Proof.
  unfold main. destruct argv as [|prog [|sd [|db rest]]]; try done.
  destruct (get_sentences_with_tag fs py_int (head rest) (py "@change flag"))
    as [e|bl] eqn:Eb; [done|]. cbn [bind].
  destruct (get_sentences_with_tag_inr fs py_int (head rest) (py "@change flag") bl Eb)
    as (tags & tag_lines & Hh & Ht & Hbl).
  destruct rest as [|tags' rest]; [done|]. injection Hh as ->.
  unfold open. destruct (fs sd) as [corpus|] eqn:Es; [|done]. cbn [bind].
  destruct (count py_int P ru corpus bl 500) as [e|σ] eqn:Ec; [done|].
  cbn [bind].
  destruct (extract_key_content_from (raw_grams σ) (raw_users_langs σ))
    as [e|fin'] eqn:Ee; [done|]. intros [= <-].
  exists prog, sd, db, tags, rest, corpus, tag_lines, bl.
  split_and!; [done..| |].
  - intros n Hn. revert Ee. unfold extract_key_content_from.
    destruct (key_tables _ _ _) as [e|g] eqn:Ek; [done|]. cbn [bind].
    case_bool_decide; [|done]. intros [= <-]. cbn [final_grams].
    rewrite (key_tables_spec _ _ _ _ Ek n).
    rewrite bool_decide_eq_true_2 by (by apply sizes_elem).
    destruct (count_spec _ _ _ _ _ _ _ Ec) as [G _]. rewrite G.
    rewrite bool_decide_eq_true_2; [done|].
    apply ngram_sizes_elem. exact Hn.
  - intros user lang total. revert Ee. unfold extract_key_content_from.
    destruct (key_tables _ _ _) as [e|g] eqn:Ek; [done|]. cbn [bind].
    case_bool_decide; [|done]. intros [= <-]. cbn [final_users_langs].
    unfold key_users. rewrite list_elem_of_filter. cbn.
    destruct (count_users_spec _ _ _ _ _ _ _ Ec) as [_ U]. rewrite U.
    tauto.
Qed.

Lemma Q_gt_irrefl (x : QArith_base.Q) : real_gt x x = false.
Proof.
  simpl. apply negb_false_iff. apply QArith_base.Qle_bool_iff.
  apply QArith_base.Qle_refl.
Qed.

Lemma extract_keeps_users_witness :
  ∃ fin : @final_db QArith_base.Q,
    extract_key_content_from sample_grams sample_users = inr fin
    ∧ (∀ user lang total,
         (user, lang, total) ∈ final_users_langs fin
         ↔ (user, lang, total) ∈ sample_users ∧ 100 < total)
    ∧ final_users_langs fin `sublist_of` sample_users.
Proof.
  destruct (extract_key_content_from (F := QArith_base.Q)
              sample_grams sample_users) as [e|fin] eqn:E.
  { vm_compute in E. discriminate. }
  exists fin. split; [reflexivity|].
  exact (extract_keeps_users sample_grams sample_users fin E).
Defined.

Lemma extract_keeps_grams_witness :
  ∃ (fin : @final_db QArith_base.Q) (t : table) ft,
    extract_key_content_from sample_grams sample_users = inr fin
    ∧ sample_grams !! 2%nat = Some t
    ∧ final_grams fin !! 2%nat = Some ft
    ∧ ∀ gram lang hit p,
        ft !! (gram, lang) = Some (hit, p)
        ↔ t !! (gram, lang) = Some hit
          ∧ lang_total t lang ≠ 0
          ∧ p = real_div (real_of_int hit) (real_of_int (lang_total t lang))
          ∧ real_gt p (if bool_decide (lang ∈ [py "wuu"; py "yue"; py "cmn"])
                       then real_of_decimal 5 6 else real_of_decimal 1 5)
            = true.
Proof.
  destruct (extract_key_content_from (F := QArith_base.Q)
              sample_grams sample_users) as [e|fin] eqn:E.
  { vm_compute in E. discriminate. }
  destruct (extract_keeps_grams sample_grams sample_users fin 2%nat E)
    as (t & ft & Ht & Hft & Hk).
  { unfold MIN_NGRAM_SIZE, MAX_NGRAM_SIZE. lia. }
  exists fin, t, ft. split; [reflexivity|]. split; [exact Ht|].
  split; [exact Hft|exact Hk].
Defined.

Lemma boundary_frequency_excluded_witness :
  key_grams (F := QArith_base.Q) sample_table !! (py "ab", py "eng") = None.
Proof.
  apply (boundary_frequency_excluded sample_table (py "ab") (py "eng") 1).
  - exact Q_gt_irrefl.
  - vm_compute. reflexivity.
  - vm_compute. reflexivity.
Defined.



Lemma tagged_ids_spec_witness :
  ∃ tagged p lines,
    get_sentences_with_tag sample_fs ascii_int (Some (py "tags.csv"))
      (py "@change flag") = inr tagged
    ∧ Some (py "tags.csv") = Some p ∧ sample_fs p = Some lines
    ∧ ∀ id, id ∈ tagged
        ↔ ∃ line sid, line ∈ lines
                      ∧ split TAB (rstrip line) = [sid; py "@change flag"]
                      ∧ ascii_int sid = Some id.
Proof.
  destruct (get_sentences_with_tag sample_fs ascii_int (Some (py "tags.csv"))
              (py "@change flag")) as [e|tagged] eqn:E.
  { vm_compute in E. discriminate. }
  destruct (tagged_ids_spec sample_fs ascii_int (Some (py "tags.csv"))
              (py "@change flag") tagged E) as (p & lines & Hp & Hf & Hi).
  exists tagged, p, lines. split; [reflexivity|]. split; [exact Hp|].
  split; [exact Hf|exact Hi].
Defined.

Lemma main_without_tags_path_witness :
  main (F := QArith_base.Q) sample_fs ascii_int Linux quiet
    [py "generate.py"; py "sentences.csv"; py "ngrams.db"]
  = Raised TypeError.
Proof.
  apply (main_without_tags_path (F := QArith_base.Q) sample_fs ascii_int Linux
           quiet [py "generate.py"; py "sentences.csv"; py "ngrams.db"]).
  simpl. lia.
Defined.

Lemma main_done_spec_witness :
  ∃ (fin : @final_db QArith_base.Q) prog sd db tags rest corpus tag_lines
    (bl : gset Z),
    main sample_fs ascii_int Linux quiet sample_argv = Done fin
    ∧ sample_argv = prog :: sd :: db :: tags :: rest
    ∧ sample_fs sd = Some corpus ∧ sample_fs tags = Some tag_lines
    ∧ (∀ id, id ∈ bl
         ↔ ∃ line sid, line ∈ tag_lines
                       ∧ split TAB (rstrip line) = [sid; py "@change flag"]
                       ∧ ascii_int sid = Some id)
    ∧ (∀ n, (MIN_NGRAM_SIZE ≤ n ≤ MAX_NGRAM_SIZE)%nat →
         final_grams fin !! n
         = Some (key_grams (hit_records n (records ascii_int bl corpus) ∅)))
    ∧ (∀ user lang total,
         (user, lang, total) ∈ final_users_langs fin
         ↔ (∃ text, (lang, text, user) ∈ records ascii_int bl corpus)
           ∧ total = score_total user lang (records ascii_int bl corpus)
           ∧ MIN_USER_CONTRIB_IN_LANG < total).
Proof.
  destruct (main (F := QArith_base.Q) sample_fs ascii_int Linux quiet
              sample_argv) as [c|e|fin] eqn:E.
  { vm_compute in E. discriminate. }
  { vm_compute in E. discriminate. }
  destruct (main_done_spec sample_fs ascii_int Linux quiet sample_argv fin E)
    as (prog & sd & db & tags & rest & corpus & tag_lines & bl & H1 & H2 & H3
        & H4 & H5 & H6).
  exists fin, prog, sd, db, tags, rest, corpus, tag_lines, bl.
  split; [reflexivity|]. split; [exact H1|]. split; [exact H2|].
  split; [exact H3|]. split; [exact H4|]. split; [exact H5|exact H6].
Defined.

Lemma counted_hits_bounded_witness :
  ∃ σ (t : table),
    count ascii_int Linux quiet corpus3 ∅ 500 = inr σ
    ∧ raw_grams σ !! 2%nat = Some t
    ∧ t !! (py "ab", py "eng") = Some 2
    ∧ 0 < 2 ≤ lang_total t (py "eng")
    ∧ lang_total t (py "eng")
      = windows_total 2 (py "eng") (records ascii_int ∅ corpus3).
Proof.
  destruct (count ascii_int Linux quiet corpus3 ∅ 500) as [e|σ] eqn:E.
  { vm_compute in E. discriminate. }
  assert (raw_grams σ !! 2%nat
          = Some (hit_records 2 (records ascii_int ∅ corpus3) ∅)) as Et.
  { rewrite (proj1 (count_spec _ _ _ _ _ _ _ E) 2%nat). reflexivity. }
  assert (hit_records 2 (records ascii_int ∅ corpus3) ∅
            !! (py "ab", py "eng") = Some 2) as Hg.
  { vm_compute. reflexivity. }
  exists σ, (hit_records 2 (records ascii_int ∅ corpus3) ∅).
  split; [reflexivity|]. split; [exact Et|]. split; [exact Hg|].
  exact (counted_hits_bounded ascii_int Linux quiet corpus3 ∅ 500 σ 2%nat _
           (py "ab") (py "eng") 2 E Et Hg).
Defined.
